(** * stock-dashboard: the acquisition, reconciliation and screening pipeline

    A shallow embedding of [dashboard.py].  The script is a Streamlit page:
    it loads a ranking CSV, looks every one of the first 100 tickers up at
    the market-data provider, joins both tables, drops the rows whose
    enrichment is incomplete and filters what is left by score and sector.

    Modelling conventions.
    - A pandas [DataFrame] is a list of column labels plus a list of rows;
      a row is a finite map from labels to cells.
    - A cell is [None], [NaN], a number or a string.  Python floats are
      modelled by exact rationals: rounding, overflow and infinities are
      outside the model.
    - An exception is a value of [exn]; a computation that may raise has
      type [result A].
    - The collaborators (file system, provider, widgets) are the fields of
      an environment [Env]; the calls made to them are logged in the
      [Session], which also carries the three [st.cache_data] stores. *)

From Stdlib Require Import QArith Qround Lqa.
From stdpp Require Import gmap strings list fin_maps sorting.

Local Open Scope string_scope.

(** ** Column labels *)

Definition col_ticker : string := "ティッカー".
Definition col_name : string := "会社名".
Definition col_sector : string := "セクター".
Definition col_cap : string := "時価総額".
Definition col_overall : string := "総合スコア".
Definition col_value : string := "VALUEスコア".
Definition col_quality : string := "QUALITYスコア".
Definition col_growth : string := "GROWTHスコア".
Definition col_momentum : string := "MOMENTUMスコア".

(** [score_cols] of [load_data]. *)
Definition score_cols : list string :=
  [col_overall; col_value; col_quality; col_growth; col_momentum].

(** The [subset] of the [dropna] call. *)
Definition essential_cols : list string := [col_sector; col_cap; col_name].

(** ** Cells *)

Inductive value : Type :=
  | VNone
  | VNaN
  | VNum (q : Q)
  | VStr (s : string).

(** [pd.isna] on a scalar. *)
Definition isna (v : value) : bool :=
  match v with
  | VNone | VNaN => true
  | VNum _ | VStr _ => false
  end.

(** Equality of cells as [isin] members, [unique] values and cache keys:
    numbers by value, strings by content, [None] and NaN each with
    itself. *)
Definition value_eqb (v w : value) : bool :=
  match v, w with
  | VNone, VNone => true
  | VNaN, VNaN => true
  | VNum p, VNum q => Qeq_bool p q
  | VStr s, VStr t => String.eqb s t
  | _, _ => false
  end.

(** Equality of join keys: as [value_eqb], except that all missing keys
    form one group and match one another. *)
Definition key_eqb (v w : value) : bool :=
  if isna v then isna w else value_eqb v w.

Fixpoint list_eqb {A} (eqb : A → A → bool) (xs ys : list A) : bool :=
  match xs, ys with
  | [], [] => true
  | x :: xs', y :: ys' => eqb x y && list_eqb eqb xs' ys'
  | _, _ => false
  end.

(** The last byte of a label, to tell a suffixed label from a plain one. *)
Fixpoint last_byte (s : string) : option Ascii.ascii :=
  match s with
  | EmptyString => None
  | String a EmptyString => Some a
  | String _ s' => last_byte s'
  end.

(** ** Exceptions *)

Inductive exn : Type :=
  | FileNotFoundError
  | KeyError (labels : list string)
  | MergeError
  | TypeError
  | OtherError (msg : string).

Inductive result (A : Type) : Type :=
  | Ok (a : A)
  | Raise (e : exn).
Arguments Ok {A} a.
Arguments Raise {A} e.

Global Instance result_ret : MRet result := λ A a, Ok a.
Global Instance result_bind : MBind result := λ A B k r,
  match r with
  | Ok a => k a
  | Raise e => Raise e
  end.
Global Instance result_fmap : FMap result := λ A B f r,
  match r with
  | Ok a => Ok (f a)
  | Raise e => Raise e
  end.

(** ** Data frames *)

Record DataFrame : Type := mkDF {
  columns : list string;
  rows : list (gmap string value)
}.

(** The cell of a row under a label; a label the row lacks reads as NaN,
    as a reindexed row does. *)
Definition cell (r : gmap string value) (c : string) : value :=
  default VNaN (r !! c).

(** [df.empty]: some axis has length zero. *)
Definition empty (df : DataFrame) : bool :=
  match columns df, rows df with
  | [], _ | _, [] => true
  | _, _ => false
  end.

(** [df.head(n)]. *)
Definition head (n : nat) (df : DataFrame) : DataFrame :=
  mkDF (columns df) (take n (rows df)).

(** [df[c]] as a list of cells; an unknown label raises [KeyError]. *)
Definition getcol (c : string) (df : DataFrame) : result (list value) :=
  if bool_decide (c ∈ columns df)
  then Ok (map (λ r, cell r c) (rows df))
  else Raise (KeyError [c]).

(** [df.drop(columns=[c], errors='ignore')]. *)
Definition drop_column (c : string) (df : DataFrame) : DataFrame :=
  mkDF (filter (λ c', c' ≠ c) (columns df)) (map (delete c) (rows df)).

(** [df[c] = f(df[c])] for an existing column [c]. *)
Definition map_column (f : value → value) (c : string) (df : DataFrame)
  : DataFrame :=
  mkDF (columns df) (map (alter f c) (rows df)).

(** ** Building a frame from a list of dicts

    [pd.DataFrame(records)]: the columns are the keys in order of first
    appearance (none at all for an empty list); a key a record lacks reads
    as NaN.  In a column that holds a float (a number or NaN) and no
    string, [None] is stored as NaN; elsewhere it stays [None]. *)

Definition dict : Type := list (string * value).

Fixpoint dict_get (d : dict) (k : string) : option value :=
  match d with
  | [] => None
  | (k', v) :: d' => if String.eqb k' k then Some v else dict_get d' k
  end.

Fixpoint first_seen (seen : list string) (ks : list string) : list string :=
  match ks with
  | [] => []
  | k :: ks' =>
      if bool_decide (k ∈ seen) then first_seen seen ks'
      else k :: first_seen (k :: seen) ks'
  end.

Definition record_keys (recs : list dict) : list string :=
  first_seen [] (concat (map (map fst) recs)).

Definition is_float (v : value) : bool :=
  match v with VNaN | VNum _ => true | _ => false end.
Definition is_str (v : value) : bool :=
  match v with VStr _ => true | _ => false end.

Definition float_column (cells : list value) : bool :=
  existsb is_float cells && negb (existsb is_str cells).

Definition store (float_col : bool) (v : value) : value :=
  match v with
  | VNone => if float_col then VNaN else VNone
  | _ => v
  end.

Definition record_cell (d : dict) (k : string) : value :=
  default VNaN (dict_get d k).

Definition frame_row (recs : list dict) (keys : list string) (d : dict)
  : gmap string value :=
  list_to_map
    (map (λ k, (k, store (float_column (map (λ d', record_cell d' k) recs))
                         (record_cell d k))) keys).

Definition frame_of_records (recs : list dict) : DataFrame :=
  let keys := record_keys recs in
  mkDF keys (map (frame_row recs keys) recs).

(** ** [pd.merge(left, right, on=key, how='left')]

    The key must be a column of both sides.  The key column of the right
    side is dropped; a label that both sides then still share gets the
    suffix [_x] on the left and [_y] on the right, and labels that clash
    after that raise [MergeError].  Every left row is kept, in order: with
    each right row whose key equals its own, in the order of the right
    side, or once with NaN in the right-hand columns when there is none.
    The check that both key columns have compatible dtypes is not
    modelled. *)

Definition relabel (f : string → string) (cols : list string)
    (r : gmap string value) : gmap string value :=
  list_to_map (map (λ c, (f c, cell r c)) cols).

Definition nan_row (cols : list string) : gmap string value :=
  list_to_map (map (λ c, (c, VNaN)) cols).

Section Merge.
Variable key : string.
Variables left right : DataFrame.

Definition right_cols : list string :=
  filter (λ c, c ≠ key) (columns right).

Definition shared (c : string) : bool :=
  bool_decide (c ∈ columns left ∧ c ∈ right_cols).

Definition left_label (c : string) : string :=
  if shared c then c +:+ "_x" else c.

Definition right_label (c : string) : string :=
  if shared c then c +:+ "_y" else c.

Definition merged_labels : list string :=
  map left_label (columns left) ++ map right_label right_cols.

Definition matches (l : gmap string value) : list (gmap string value) :=
  filter (λ r, key_eqb (cell l key) (cell r key) = true) (rows right).

Definition join_row (l : gmap string value) : list (gmap string value) :=
  let l' := relabel left_label (columns left) l in
  match matches l with
  | [] => [l' ∪ nan_row (map right_label right_cols)]
  | ms => map (λ r, l' ∪ relabel right_label right_cols r) ms
  end.

Definition merge_left : result DataFrame :=
  if negb (bool_decide (key ∈ columns right)) then Raise (KeyError [key]) else
  if negb (bool_decide (key ∈ columns left)) then Raise (KeyError [key]) else
  if negb (bool_decide (NoDup merged_labels)) then Raise MergeError else
  Ok (mkDF merged_labels (concat (map join_row (rows left)))).
End Merge.

(** ** [df.dropna(subset=labels)]

    Every label must be a column ([KeyError] with the unknown labels
    otherwise); the rows with a missing cell under one of the labels are
    removed. *)

Definition complete (labels : list string) (r : gmap string value) : bool :=
  forallb (λ c, negb (isna (cell r c))) labels.

Definition dropna (labels : list string) (df : DataFrame) : result DataFrame :=
  match filter (λ c, c ∉ columns df) labels with
  | [] => Ok (mkDF (columns df) (filter (λ r, complete labels r = true) (rows df)))
  | missing => Raise (KeyError missing)
  end.

(** ** Statistics of a numeric column

    [min], [max] and [quantile] skip missing cells and yield NaN when no
    number is left.  A string under a numeric reduction raises. *)

Fixpoint numbers (cells : list value) : result (list Q) :=
  match cells with
  | [] => Ok []
  | VNum q :: cells' => qs ← numbers cells'; Ok (q :: qs)
  | VStr _ :: _ => Raise TypeError
  | _ :: cells' => numbers cells'
  end.

Global Instance Qle_dec (x y : Q) : Decision (x <= y)%Q :=
  decide (Qnum x * Zpos (Qden y) ≤ Qnum y * Zpos (Qden x))%Z.

Definition Qmax (x y : Q) : Q := if Qle_bool x y then y else x.
Definition Qmin (x y : Q) : Q := if Qle_bool x y then x else y.

Definition series_max (qs : list Q) : value :=
  match qs with
  | [] => VNaN
  | q :: qs' => VNum (foldr Qmax q qs')
  end.

Definition series_min (qs : list Q) : value :=
  match qs with
  | [] => VNaN
  | q :: qs' => VNum (foldr Qmin q qs')
  end.

(** [Series.quantile(p)] with the default linear interpolation: in the
    sorted numbers, position [(n-1)*p] falls between the neighbours
    [lo] and [hi], and the result is [lo + (hi - lo) * fraction]. *)
Definition quantile (p : Q) (qs : list Q) : value :=
  match merge_sort Qle qs with
  | [] => VNaN
  | q0 :: rest =>
      let sorted := q0 :: rest in
      let pos := (inject_Z (Z.of_nat (length sorted) - 1) * p)%Q in
      let lo := nth (Z.to_nat (Qfloor pos)) sorted q0 in
      let hi := nth (Z.to_nat (Qceiling pos)) sorted q0 in
      VNum (lo + (hi - lo) * (pos - inject_Z (Qfloor pos)))%Q
  end.

(** [Series.unique().tolist()]: the distinct cells, in order of first
    appearance. *)
Fixpoint unique (cells : list value) : list value :=
  match cells with
  | [] => []
  | v :: cells' => v :: filter (λ w, value_eqb v w = false) (unique cells')
  end.

(** [Series.isin(values)] on one cell. *)
Definition isin (values : list value) (v : value) : bool :=
  existsb (value_eqb v) values.

(** [series >= bound] and [series <= bound] on one cell.  In a numeric
    column a cell is a number or NaN, and NaN compares false; a string or
    [None] makes the column an object column, whose comparison with a
    float raises. *)
Definition cell_ge (v bound : value) : result bool :=
  match v, bound with
  | VNum q, VNum b => Ok (Qle_bool b q)
  | VNum _, VNaN | VNaN, VNum _ | VNaN, VNaN => Ok false
  | _, _ => Raise TypeError
  end.

Definition cell_le (v bound : value) : result bool :=
  match v, bound with
  | VNum q, VNum b => Ok (Qle_bool q b)
  | VNum _, VNaN | VNaN, VNum _ | VNaN, VNaN => Ok false
  | _, _ => Raise TypeError
  end.

(** A comparison applied to a whole series. *)
Fixpoint series_map {A} (f : value → result A) (cells : list value)
  : result (list A) :=
  match cells with
  | [] => Ok []
  | v :: cells' => b ← f v; bs ← series_map f cells'; Ok (b :: bs)
  end.

(** [df[mask]]: the rows whose mask entry is true. *)
Fixpoint select {A} (mask : list bool) (xs : list A) : list A :=
  match mask, xs with
  | b :: mask', x :: xs' => if b then x :: select mask' xs' else select mask' xs'
  | _, _ => []
  end.

Fixpoint and3 (a b c : list bool) : list bool :=
  match a, b, c with
  | x :: a', y :: b', z :: c' => (x && y && z) :: and3 a' b' c'
  | _, _, _ => []
  end.

(** ** The median and the maximum, as one would define them

    The median of a non-empty list is the middle one of its sorted
    elements, or the mean of the two middle ones when their number is
    even.  These are the reference notions [quantile] and [series_max]
    are compared with. *)

Definition median (qs : list Q) : option Q :=
  match merge_sort Qle qs with
  | [] => None
  | q0 :: rest =>
      let sorted := q0 :: rest in
      let mid := Nat.div2 (length sorted) in
      if Nat.even (length sorted)
      then Some ((nth (mid - 1) sorted q0 + nth mid sorted q0) / 2)%Q
      else Some (nth mid sorted q0)
  end.

Definition is_maximum (m : Q) (qs : list Q) : Prop :=
  m ∈ qs ∧ ∀ q, q ∈ qs → (q <= m)%Q.

(** A float cell against an optional rational: NaN for none, a number
    equal to the given one otherwise. *)
Definition is_float_of (v : value) (o : option Q) : Prop :=
  match v, o with
  | VNaN, None => True
  | VNum p, Some q => (p == q)%Q
  | _, _ => False
  end.

(** The numbers among the overall scores of a frame, in row order. *)
Definition float_value (v : value) : option Q :=
  match v with VNum q => Some q | _ => None end.

Definition present_scores (df : DataFrame) : list Q :=
  omap (λ r, float_value (cell r col_overall)) (rows df).


(** The same predicate as a test. *)
Definition passesb (lo hi : Q) (selected : list value) (r : gmap string value)
  : bool :=
  match cell r col_overall with
  | VNum q => Qle_bool lo q && Qle_bool q hi
  | _ => false
  end && isin selected (cell r col_sector).

(** No two cells of the list are equal. *)
Fixpoint distinct (cells : list value) : Prop :=
  match cells with
  | [] => True
  | v :: cells' => isin cells' v = false ∧ distinct cells'
  end.

(** ** The collaborators *)

Record Env : Type := mkEnv {
  (** [pd.read_csv]: the table of a file, or the exception it raises. *)
  read_csv : string → result DataFrame;
  (** the numeric reading of a string cell by [pd.to_numeric], if any *)
  parse_number : string → option Q;
  (** [yf.Ticker(code).info]: a dict, or the exception raised on the way *)
  ticker_info : value → result (gmap string value);
  (** [yf.Ticker(code).history(period="1y")] *)
  ticker_history : value → result DataFrame;
  (** [st.sidebar.slider(min_value, max_value, value)]; the widgets are
      taken to return a selection, what they reject is not modelled *)
  slider : value → value → value * value → value * value;
  (** [st.sidebar.multiselect(options, default)] *)
  multiselect : list value → list value → list value
}.

(** ** The session: call logs and the [st.cache_data] stores *)

Record Session : Type := mkSession {
  csv_reads : list string;
  info_requests : list value;
  history_requests : list value;
  load_cache : list (string * option DataFrame);
  detail_cache : list (list value * DataFrame);
  price_cache : list (value * option DataFrame)
}.

Definition fresh : Session := mkSession [] [] [] [] [] [].

Definition M (A : Type) : Type := Session → Session * result A.

Global Instance M_ret : MRet M := λ A a s, (s, Ok a).
Global Instance M_bind : MBind M := λ A B k m s,
  match m s with
  | (s', Ok a) => k a s'
  | (s', Raise e) => (s', Raise e)
  end.

Definition lift {A} (r : result A) : M A := λ s, (s, r).

Definition log_read (path : string) : M unit := λ s,
  (mkSession (csv_reads s ++ [path]) (info_requests s) (history_requests s)
             (load_cache s) (detail_cache s) (price_cache s), Ok ()).

Definition log_info (t : value) : M unit := λ s,
  (mkSession (csv_reads s) (info_requests s ++ [t]) (history_requests s)
             (load_cache s) (detail_cache s) (price_cache s), Ok ()).

Definition log_history (t : value) : M unit := λ s,
  (mkSession (csv_reads s) (info_requests s) (history_requests s ++ [t])
             (load_cache s) (detail_cache s) (price_cache s), Ok ()).

Definition set_load_cache c (s : Session) : Session :=
  mkSession (csv_reads s) (info_requests s) (history_requests s)
            c (detail_cache s) (price_cache s).
Definition set_detail_cache c (s : Session) : Session :=
  mkSession (csv_reads s) (info_requests s) (history_requests s)
            (load_cache s) c (price_cache s).
Definition set_price_cache c (s : Session) : Session :=
  mkSession (csv_reads s) (info_requests s) (history_requests s)
            (load_cache s) (detail_cache s) c.

(** ** [@st.cache_data]

    The decorated function is run only when the store has no entry for
    the argument; a returned value is stored, an exception is not.  There
    is no expiry and no eviction. *)

Fixpoint assoc {K V} (eqb : K → K → bool) (k : K) (store : list (K * V))
  : option V :=
  match store with
  | [] => None
  | (k', v) :: store' => if eqb k' k then Some v else assoc eqb k store'
  end.

Section ResultCache.
Context {K V : Type}.
Variable eqb : K → K → bool.
Variable get : Session → list (K * V).
Variable set : list (K * V) → Session → Session.

Definition cache_data (f : K → M V) (k : K) : M V := λ s,
  match assoc eqb k (get s) with
  | Some v => (s, Ok v)
  | None =>
      match f k s with
      | (s', Ok v) => (set ((k, v) :: get s') s', Ok v)
      | (s', Raise e) => (s', Raise e)
      end
  end.
End ResultCache.

(** ** [load_data] *)

(** [pd.to_numeric(..., errors='coerce')] on one cell. *)
Definition to_numeric (env : Env) (v : value) : value :=
  match v with
  | VNum q => VNum q
  | VStr s => match parse_number env s with Some q => VNum q | None => VNaN end
  | VNone | VNaN => VNaN
  end.

Definition coerce_step (env : Env) (df : DataFrame) (col : string) : DataFrame :=
  if bool_decide (col ∈ columns df)
  then map_column (to_numeric env) col df
  else df.

Definition coerce_scores (env : Env) (df : DataFrame) : DataFrame :=
  foldl (coerce_step env) df score_cols.

Definition load_data (env : Env) (file_path : string) : M (option DataFrame) :=
  _ ← log_read file_path;
  match read_csv env file_path with
  | Ok df => mret (Some (coerce_scores env df))
  | Raise FileNotFoundError => mret None
  | Raise e => lift (Raise e)
  end.

Definition load_data_cached (env : Env) : string → M (option DataFrame) :=
  cache_data String.eqb load_cache set_load_cache (load_data env).

(** ** [get_detailed_data] *)

Definition info_get (info : gmap string value) (k : string) : value :=
  default VNone (info !! k).

Definition detail_record (t : value) (info : gmap string value) : dict :=
  [ (col_ticker, t);
    (col_name, info_get info "shortName");
    (col_sector, info_get info "sector");
    (col_cap, info_get info "marketCap") ].

(** The loop: one lookup per ticker; a lookup that raises is skipped. *)
Fixpoint detail_records (env : Env) (tickers : list value) : M (list dict) :=
  match tickers with
  | [] => mret []
  | t :: tickers' =>
      _ ← log_info t;
      match ticker_info env t with
      | Ok info =>
          recs ← detail_records env tickers';
          mret (detail_record t info :: recs)
      | Raise _ => detail_records env tickers'
      end
  end.

Definition get_detailed_data (env : Env) (tickers : list value) : M DataFrame :=
  detailed_data ← detail_records env tickers;
  mret (frame_of_records detailed_data).

Definition get_detailed_data_cached (env : Env) : list value → M DataFrame :=
  cache_data (list_eqb value_eqb) detail_cache set_detail_cache
             (get_detailed_data env).

(** The keys of every record, in order. *)
Definition detail_keys : list string :=
  [col_ticker; col_name; col_sector; col_cap].

(** What one lookup contributes to [detailed_data]. *)
Definition lookup_record (env : Env) (t : value) : option dict :=
  match ticker_info env t with
  | Ok info => Some (detail_record t info)
  | Raise _ => None
  end.

(** A cell of a record as the frame built from it keeps it: unchanged,
    or NaN for [None]. *)
Definition stored_as (v w : value) : Prop :=
  w = v ∨ (v = VNone ∧ w = VNaN).

(** ** [get_price_history] *)

Definition get_price_history (env : Env) (ticker : value)
  : M (option DataFrame) :=
  _ ← log_history ticker;
  match ticker_history env ticker with
  | Ok history => mret (Some history)
  | Raise _ => mret None
  end.

Definition get_price_history_cached (env : Env) : value → M (option DataFrame) :=
  cache_data value_eqb price_cache set_price_cache (get_price_history env).

(** ** The merge block of the script

    [base_scores_df = top_100_df.drop(columns=['会社名'], errors='ignore')],
    [df = pd.merge(base_scores_df, detailed_df, on='ティッカー', how='left')],
    [df.dropna(subset=['セクター', '時価総額', '会社名'], inplace=True)]. *)

Definition reconcile (top_100_df detailed_df : DataFrame) : result DataFrame :=
  let base_scores_df := drop_column col_name top_100_df in
  df ← merge_left col_ticker base_scores_df detailed_df;
  dropna essential_cols df.

(** ** The sidebar: bounds, defaults and the filter *)

Record Sidebar : Type := mkSidebar {
  min_value : value;
  max_value : value;
  default_range : value * value;
  all_sectors : list value
}.

(** The arguments of the slider and of the multiselect. *)
Definition sidebar (df : DataFrame) : result Sidebar :=
  cells ← getcol col_overall df;
  scores ← numbers cells;
  sectors ← getcol col_sector df;
  Ok (mkSidebar (series_min scores) (series_max scores)
                (quantile (1 # 2) scores, series_max scores)
                (unique sectors)).

(** [df[(df[s] >= lo) & (df[s] <= hi) & df[sector].isin(selected)]]. *)
Definition screener (df : DataFrame) (score_range : value * value)
    (selected_sectors : list value) : result DataFrame :=
  cells ← getcol col_overall df;
  above ← series_map (λ v, cell_ge v (fst score_range)) cells;
  below ← series_map (λ v, cell_le v (snd score_range)) cells;
  sectors ← getcol col_sector df;
  let inside := map (isin selected_sectors) sectors in
  Ok (mkDF (columns df) (select (and3 above below inside) (rows df))).

(** ** The page *)

Definition ranking_path : string := "TSE_all_comprehensive_ranking_2025-07.csv".

Inductive Page : Type :=
  | NoRanking
  | EmptyFrame
  | Dashboard (df : DataFrame) (bar : Sidebar)
              (score_range : value * value) (selected_sectors : list value)
              (filtered_df : DataFrame).

(** The script from [top_100_df = base_df.head(100)] to [filtered_df]. *)
Definition page (env : Env) (base_df : DataFrame) : M Page :=
  let top_100_df := head 100 base_df in
  top_tickers ← lift (getcol col_ticker top_100_df);
  detailed_df ← get_detailed_data_cached env top_tickers;
  df ← lift (reconcile top_100_df detailed_df);
  if empty df then mret EmptyFrame else
  bar ← lift (sidebar df);
  let score_range := slider env (min_value bar) (max_value bar) (default_range bar) in
  let selected_sectors := multiselect env (all_sectors bar) (all_sectors bar) in
  filtered_df ← lift (screener df score_range selected_sectors);
  mret (Dashboard df bar score_range selected_sectors filtered_df).

Definition main (env : Env) : M Page :=
  base_df ← load_data_cached env ranking_path;
  match base_df with
  | None => mret NoRanking
  | Some base_df => page env base_df
  end.

(** The price panel of the deep dive: the chart when a history came back,
    the warning otherwise. *)
Inductive PricePanel : Type :=
  | PriceChart (history : DataFrame)
  | PriceWarning.

Definition price_panel (env : Env) (ticker : value) : M PricePanel :=
  price_history ← get_price_history_cached env ticker;
  match price_history with
  | Some history => mret (PriceChart history)
  | None => mret PriceWarning
  end.

(** [df.values.tolist()]: the cells row by row, for reading a frame. *)
Definition values (df : DataFrame) : list (list value) :=
  map (λ r, map (cell r) (columns df)) (rows df).

(** ** A small world to run the page in *)

Module Scenario.
Definition num (z : Z) : value := VNum (inject_Z z).

Definition ranking_row (t : string) (name : string) (score : Z)
  : gmap string value :=
  {[ col_ticker := VStr t; col_name := VStr name; col_overall := num score ]}.

Definition ranking : DataFrame :=
  mkDF [col_ticker; col_name; col_overall]
       [ ranking_row "A" "old A" 5; ranking_row "B" "old B" 8;
         ranking_row "C" "old C" 2 ].

Definition info (name sector : string) (cap : Z) : gmap string value :=
  {[ "shortName" := VStr name; "sector" := VStr sector; "marketCap" := num cap ]}.

Definition provider (t : value) : result (gmap string value) :=
  match t with
  | VStr "A" => Ok (info "Alpha" "Tech" 100)
  | VStr "B" => Ok (info "Beta" "Finance" 200)
  | _ => Raise (OtherError "lookup failed")
  end.

Definition env : Env :=
  mkEnv (λ path, if String.eqb path ranking_path then Ok ranking
                 else Raise FileNotFoundError)
        (λ _, None)
        provider
        (λ _, Raise (OtherError "no history"))
        (λ _ _ default, default)
        (λ _ default, default).

(** What the provider's answers make of tickers A, B and C. *)
Definition detailed : DataFrame :=
  frame_of_records
    [ detail_record (VStr "A") (info "Alpha" "Tech" 100);
      detail_record (VStr "B") (info "Beta" "Finance" 200) ].

Definition enriched_row (t name sector : string) (score cap : Z)
  : gmap string value :=
  {[ col_ticker := VStr t; col_overall := num score; col_name := VStr name;
     col_sector := VStr sector; col_cap := num cap ]}.

Definition row_A := enriched_row "A" "Alpha" "Tech" 5 100.
Definition row_B := enriched_row "B" "Beta" "Finance" 8 200.

Definition enriched : DataFrame :=
  mkDF [col_ticker; col_overall; col_name; col_sector; col_cap] [row_A; row_B].

(** The sidebar and the filtered frame the page shows for it. *)
Definition sidebar_expected : Sidebar :=
  mkSidebar (num 5) (num 8) (VNum (13 # 2), num 8)
            [VStr "Tech"; VStr "Finance"].

Definition filtered : DataFrame := mkDF (columns enriched) [row_B].
End Scenario.

(** The ranking file is there; the provider answers no request. *)
Module Outage.
Definition env : Env :=
  mkEnv (read_csv Scenario.env)
        (λ _, None)
        (λ _, Raise (OtherError "provider unreachable"))
        (λ _, Raise (OtherError "provider unreachable"))
        (λ _ _ default, default)
        (λ _ default, default).
End Outage.

(** A provider that knows ticker D but has no trading day for it, and
    fails on every other ticker. *)
Module Delisted.
Definition no_trading_days : DataFrame := mkDF ["Close"] [].

Definition env : Env :=
  mkEnv (read_csv Scenario.env)
        (λ _, None)
        Scenario.provider
        (λ t, match t with
              | VStr "D" => Ok no_trading_days
              | _ => Raise (OtherError "no such ticker")
              end)
        (λ _ _ default, default)
        (λ _ default, default).
End Delisted.

(** A ranking file with one of the five score columns only, and a cell in
    it that is no number.  Strings of decimal digits read as numbers. *)
Module Ragged.
Fixpoint digits (acc : Z) (s : string) : option Z :=
  match s with
  | EmptyString => Some acc
  | String a s' =>
      let n := Ascii.nat_of_ascii a in
      if (48 <=? n)%nat && (n <=? 57)%nat
      then digits (10 * acc + Z.of_nat (n - 48)) s'
      else None
  end.

Definition parse (s : string) : option Q :=
  match s with
  | EmptyString => None
  | _ => inject_Z <$> digits 0 s
  end.

Definition raw : DataFrame :=
  mkDF [col_ticker; col_overall]
       [ {[ col_ticker := VStr "A"; col_overall := VStr "7" ]};
         {[ col_ticker := VStr "B"; col_overall := VStr "n/a" ]} ].

Definition loaded : DataFrame :=
  mkDF [col_ticker; col_overall]
       [ {[ col_ticker := VStr "A"; col_overall := Scenario.num 7 ]};
         {[ col_ticker := VStr "B"; col_overall := VNaN ]} ].

Definition env : Env :=
  mkEnv (λ path, if String.eqb path "ragged.csv" then Ok raw
                 else Raise FileNotFoundError)
        parse
        Scenario.provider
        (λ _, Raise (OtherError "no history"))
        (λ _ _ default, default)
        (λ _ default, default).
End Ragged.

(** A ranking file of 101 rows, tickers 0 to 100, best score first, and a
    provider that answers every request. *)
Module Long.
Definition ranking_row (n : nat) : gmap string value :=
  {[ col_ticker := Scenario.num (Z.of_nat n);
     col_overall := Scenario.num (100 - Z.of_nat n) ]}.

Definition ranking : DataFrame :=
  mkDF [col_ticker; col_overall] (map ranking_row (seq 0 101)).

Definition env : Env :=
  mkEnv (λ _, Ok ranking)
        (λ _, None)
        (λ _, Ok (Scenario.info "Name" "Sector" 1))
        (λ _, Raise (OtherError "no history"))
        (λ _ _ default, default)
        (λ _ default, default).
End Long.

(** A provider whose answer for ticker B has a name but neither sector
    nor market capitalisation, and which fails on ticker C. *)
Module Partial.
Definition provider (t : value) : result (gmap string value) :=
  match t with
  | VStr "A" => Ok (Scenario.info "Alpha" "Tech" 100)
  | VStr "B" => Ok {[ "shortName" := VStr "Beta" ]}
  | _ => Raise (OtherError "lookup failed")
  end.

Definition env : Env :=
  mkEnv (read_csv Scenario.env)
        (λ _, None)
        provider
        (λ _, Raise (OtherError "no history"))
        (λ _ _ default, default)
        (λ _ default, default).

Definition tickers : list value := [VStr "A"; VStr "B"; VStr "C"].

Definition row_A : gmap string value :=
  {[ col_ticker := VStr "A"; col_name := VStr "Alpha";
     col_sector := VStr "Tech"; col_cap := Scenario.num 100 ]}.

Definition row_B : gmap string value :=
  {[ col_ticker := VStr "B"; col_name := VStr "Beta";
     col_sector := VNone; col_cap := VNaN ]}.

Definition detailed : DataFrame :=
  mkDF [col_ticker; col_name; col_sector; col_cap] [row_A; row_B].
End Partial.

(** ** The page once the reference frame is there

    The merge block, the sidebar and the filter in one piece: from
    [detailed_df] on the script touches neither the provider nor the
    caches before the deep dive. *)

Definition render (env : Env) (top_100_df detailed_df : DataFrame)
  : result Page :=
  df ← reconcile top_100_df detailed_df;
  if empty df then Ok EmptyFrame else
  bar ← sidebar df;
  let score_range := slider env (min_value bar) (max_value bar) (default_range bar) in
  let selected_sectors := multiselect env (all_sectors bar) (all_sectors bar) in
  filtered_df ← screener df score_range selected_sectors;
  Ok (Dashboard df bar score_range selected_sectors filtered_df).

(** Whether the lookup of a ticker returns. *)
Definition answered (env : Env) (t : value) : bool :=
  match ticker_info env t with Ok _ => true | Raise _ => false end.

(** ** The deep dive

    [selected_stock_name = st.selectbox(..., options=filtered_df['会社名'].tolist())],
    [stock_details = filtered_df[filtered_df['会社名'] == selected_stock_name].iloc[0]],
    [score_values = stock_details[score_categories].values.flatten().tolist()],
    [price_history = get_price_history(stock_details['ティッカー'])].
    The select box is a function from the options to the selection. *)

Definition score_categories : list string :=
  [col_value; col_quality; col_growth; col_momentum].

(** The truth value of a cell, as in [if selected_stock_name:]. *)
Definition truthy (v : value) : bool :=
  match v with
  | VNone => false
  | VNaN => true
  | VNum q => negb (Qeq_bool q 0)
  | VStr s => negb (String.eqb s "")
  end.

(** [series == scalar] on one cell: a missing cell equals nothing. *)
Definition cell_eq (v w : value) : bool :=
  match v, w with
  | VNum p, VNum q => Qeq_bool p q
  | VStr s, VStr t => String.eqb s t
  | _, _ => false
  end.

(** [row[c]] and [row[labels]] for a row of a frame with the columns
    [cols]: [KeyError] with the labels that are no column. *)
Definition row_getitem (cols : list string) (r : gmap string value)
    (c : string) : result value :=
  if bool_decide (c ∈ cols) then Ok (cell r c) else Raise (KeyError [c]).

Definition row_getitems (cols : list string) (r : gmap string value)
    (labels : list string) : result (list value) :=
  match filter (λ c, c ∉ cols) labels with
  | [] => Ok (map (cell r) labels)
  | missing => Raise (KeyError missing)
  end.

(** [.iloc[0]] on an empty selection *)
Definition IndexError : exn :=
  OtherError "IndexError: single positional indexer is out-of-bounds".

Inductive DeepDive : Type :=
  | NoStocks
  | NothingSelected
  | StockProfile (stock_details : gmap string value)
                 (score_values : list value) (price : PricePanel).

Definition deep_dive (env : Env) (selectbox : list value → value)
    (filtered_df : DataFrame) : M DeepDive :=
  if empty filtered_df then mret NoStocks else
  names ← lift (getcol col_name filtered_df);
  let selected_stock_name := selectbox names in
  if negb (truthy selected_stock_name) then mret NothingSelected else
  match filter (λ r, cell_eq (cell r col_name) selected_stock_name = true)
               (rows filtered_df) with
  | [] => lift (Raise IndexError)
  | stock_details :: _ =>
      _ ← lift (row_getitem (columns filtered_df) stock_details col_name);
      score_values ← lift (row_getitems (columns filtered_df) stock_details
                                        score_categories);
      ticker ← lift (row_getitem (columns filtered_df) stock_details col_ticker);
      price ← price_panel env ticker;
      mret (StockProfile stock_details score_values price)
  end.

(** A ranking file that cannot be parsed. *)
Module Broken.
Definition env : Env :=
  mkEnv (λ _, Raise (OtherError "EmptyDataError: No columns to parse from file"))
        (λ _, None)
        Scenario.provider
        (λ _, Raise (OtherError "no history"))
        (λ _ _ default, default)
        (λ _ default, default).
End Broken.

(** The reference row of ticker B in the scenario. *)
Module Reference.
Definition row_B : gmap string value :=
  {[ col_ticker := VStr "B"; col_name := VStr "Beta";
     col_sector := VStr "Finance"; col_cap := Scenario.num 200 ]}.
End Reference.

(** A ranking file that brings a sector column of its own. *)
Module Sectored.
Definition ranking : DataFrame :=
  mkDF [col_ticker; col_sector; col_overall]
       [ {[ col_ticker := VStr "A"; col_sector := VStr "Technology";
            col_overall := Scenario.num 5 ]} ].
End Sectored.

(** A ranking file without the overall score. *)
Module Unscored.
Definition ranking : DataFrame :=
  mkDF [col_ticker; col_value]
       [ {[ col_ticker := VStr "A"; col_value := Scenario.num 3 ]};
         {[ col_ticker := VStr "B"; col_value := Scenario.num 4 ]} ].

Definition env : Env :=
  mkEnv (λ _, Ok ranking)
        (λ _, None)
        Scenario.provider
        (λ _, Raise (OtherError "no history"))
        (λ _ _ default, default)
        (λ _ default, default).
End Unscored.

(** A filtered frame with the four factor scores, in which two stocks
    go by the same name. *)
Module Twins.
Definition row (t name : string) (v q g m : Z) : gmap string value :=
  {[ col_ticker := VStr t; col_name := VStr name;
     col_value := Scenario.num v; col_quality := Scenario.num q;
     col_growth := Scenario.num g; col_momentum := Scenario.num m ]}.

Definition first : gmap string value := row "1111" "Twin" 1 2 3 4.
Definition second : gmap string value := row "2222" "Twin" 5 6 7 8.
Definition other : gmap string value := row "3333" "Other" 9 9 9 9.

Definition filtered : DataFrame :=
  mkDF [col_ticker; col_name; col_value; col_quality; col_growth; col_momentum]
       [other; first; second].

(** The same frame from a ranking file without the growth score. *)
Definition without_growth : DataFrame :=
  mkDF [col_ticker; col_name; col_value; col_quality; col_momentum]
       (map (delete col_growth) [other; first; second]).

(** The user picks the name Twin. *)
Definition pick_twin (options : list value) : value := VStr "Twin".

Definition env : Env :=
  mkEnv (read_csv Scenario.env)
        (λ _, None)
        Scenario.provider
        (λ t, match t with
              | VStr "1111" => Ok (mkDF ["Close"] [ {[ "Close" := Scenario.num 10 ]} ])
              | _ => Raise (OtherError "no such ticker")
              end)
        (λ _ _ default, default)
        (λ _ default, default).
End Twins.

(** A ranking file that lists ticker A twice. *)
Module Repeated.
Definition ranking : DataFrame :=
  mkDF [col_ticker; col_overall]
       [ {[ col_ticker := VStr "A"; col_overall := Scenario.num 5 ]};
         {[ col_ticker := VStr "A"; col_overall := Scenario.num 6 ]} ].
End Repeated.

(** No two rows of a list have equal keys under the label. *)
Definition distinct_keys (c : string) (rs : list (gmap string value)) : Prop :=
  ∀ i j ri rj, rs !! i = Some ri → rs !! j = Some rj →
               key_eqb (cell ri c) (cell rj c) = true → i = j.

(** * Properties *)

Local Ltac div_lia := Z.to_euclidean_division_equations; lia.

(** ** Cells and labels *)

Lemma value_eqb_refl v : value_eqb v v = true.
Proof.
  destruct v; simpl; try reflexivity.
  - apply Qeq_bool_iff. reflexivity.
  - apply String.eqb_refl.
Qed.

Lemma value_eqb_sym v w : value_eqb v w = value_eqb w v.
Proof.
  destruct v, w; simpl; try reflexivity.
  - apply eq_true_iff_eq. rewrite !Qeq_bool_iff. split; intros H; by symmetry.
  - apply String.eqb_sym.
Qed.

Lemma value_eqb_trans u v w :
  value_eqb u v = true → value_eqb v w = true → value_eqb u w = true.
Proof.
  destruct u, v, w; simpl; try congruence.
  - rewrite !Qeq_bool_iff. intros -> ->. reflexivity.
  - rewrite !String.eqb_eq. congruence.
Qed.

Lemma cell_present r c v : cell r c = v → isna v = false → r !! c = Some v.
Proof.
  unfold cell. destruct (r !! c) as [w|]; simpl; intros <-; [done|discriminate].
Qed.

Lemma last_byte_app c a b : last_byte (c +:+ String a (String b "")) = Some b.
Proof.
  induction c as [|x c IH]; [reflexivity|].
  change (String x c +:+ String a (String b "")) with
    (String x (c +:+ String a (String b ""))).
  simpl. rewrite IH.
  by destruct (c +:+ String a (String b "")) eqn:E;
    [destruct c; discriminate E|].
Qed.

Lemma suffix_x_not_name c : c +:+ "_x" ≠ col_name.
Proof. intros H. apply (f_equal last_byte) in H. rewrite last_byte_app in H. discriminate H. Qed.

Lemma suffix_y_not_name c : c +:+ "_y" ≠ col_name.
Proof. intros H. apply (f_equal last_byte) in H. rewrite last_byte_app in H. discriminate H. Qed.

(** ** Frames *)

Lemma getcol_Ok c df cells :
  getcol c df = Ok cells ↔ c ∈ columns df ∧ cells = map (λ r, cell r c) (rows df).
Proof.
  unfold getcol. case_bool_decide; split.
  - intros [= <-]. done.
  - intros [_ ->]. done.
  - discriminate.
  - intros [? _]. done.
Qed.

Lemma dropna_Ok labels df out :
  dropna labels df = Ok out ↔
  Forall (λ c, c ∈ columns df) labels ∧
  out = mkDF (columns df) (filter (λ r, complete labels r = true) (rows df)).
Proof.
  unfold dropna.
  destruct (filter (λ c, c ∉ columns df) labels) as [|c cs] eqn:E.
  - assert (Forall (λ c, c ∈ columns df) labels) as Hall.
    { apply Forall_forall. intros c Hc.
      destruct (decide (c ∈ columns df)) as [|Hn]; [done|].
      assert (c ∈ filter (λ c, c ∉ columns df) labels) as Hin
        by (apply list_elem_of_filter; done).
      rewrite E in Hin. by apply not_elem_of_nil in Hin. }
    split; [intros [= <-]; done | intros [_ ->]; done].
  - split; [discriminate|]. intros [Hall _].
    assert (c ∈ filter (λ c, c ∉ columns df) labels) as Hin
      by (rewrite E; left).
    apply list_elem_of_filter in Hin as [Hn Hc].
    rewrite Forall_forall in Hall. destruct Hn. by apply Hall.
Qed.

Lemma complete_spec labels r :
  complete labels r = true ↔
  ∀ c, c ∈ labels → ∃ v, r !! c = Some v ∧ isna v = false.
Proof.
  unfold complete. rewrite forallb_forall. split.
  - intros H c Hc. apply list_elem_of_In in Hc. specialize (H c Hc).
    apply negb_true_iff in H. exists (cell r c). split; [|done].
    by apply cell_present.
  - intros H c Hc. apply list_elem_of_In in Hc.
    destruct (H c Hc) as (v & Hv & Hna). unfold cell. rewrite Hv. simpl.
    by rewrite Hna.
Qed.

Lemma dropna_rows labels df out r :
  dropna labels df = Ok out →
  r ∈ rows out ↔ r ∈ rows df ∧ complete labels r = true.
Proof.
  intros [_ ->]%dropna_Ok. simpl. rewrite list_elem_of_filter. tauto.
Qed.

(** ** The join *)

Lemma relabel_lookup_Some f cols r k v :
  relabel f cols r !! k = Some v → ∃ c, c ∈ cols ∧ f c = k ∧ v = cell r c.
Proof.
  unfold relabel. intros H%elem_of_list_to_map_2.
  apply list_elem_of_fmap in H as (c & [= -> ->] & Hc). eauto.
Qed.

Lemma relabel_lookup_None f cols r k :
  (∀ c, c ∈ cols → f c ≠ k) → relabel f cols r !! k = None.
Proof.
  intros H. unfold relabel. apply not_elem_of_list_to_map.
  rewrite <- list_fmap_compose. intros (c & Hk & Hc)%list_elem_of_fmap.
  simpl in Hk. by apply (H c).
Qed.

Lemma relabel_lookup_NoDup f cols r c :
  NoDup (map f cols) → c ∈ cols → relabel f cols r !! f c = Some (cell r c).
Proof.
  intros Hnd Hc. unfold relabel. apply elem_of_list_to_map_1.
  - rewrite <- list_fmap_compose.
    by replace (fst ∘ (λ c0, (f c0, cell r c0))) with f by done.
  - apply list_elem_of_fmap. eauto.
Qed.

Lemma nan_row_lookup cols k v : nan_row cols !! k = Some v → v = VNaN.
Proof.
  unfold nan_row. intros H%elem_of_list_to_map_2.
  by apply list_elem_of_fmap in H as (c & [= -> ->] & Hc).
Qed.

Lemma elem_of_concat {A} (x : A) (ls : list (list A)) :
  x ∈ concat ls ↔ ∃ l, x ∈ l ∧ l ∈ ls.
Proof.
  rewrite list_elem_of_In, in_concat. split.
  - intros (l & Hl & Hx). exists l. by rewrite !list_elem_of_In.
  - intros (l & Hx & Hl). exists l. by rewrite <- !list_elem_of_In.
Qed.

Section MergeFacts.
Variable key : string.
Variables left right : DataFrame.

Lemma merge_left_Ok m :
  merge_left key left right = Ok m ↔
  key ∈ columns right ∧ key ∈ columns left ∧
  NoDup (merged_labels key left right) ∧
  m = mkDF (merged_labels key left right)
           (concat (map (join_row key left right) (rows left))).
Proof.
  unfold merge_left. repeat case_bool_decide; simpl; split;
    try discriminate; try (intros (? & ? & ? & ?); done).
  - intros [= <-]. done.
  - intros (_ & _ & _ & ->). done.
Qed.

Lemma merge_left_rows m r :
  merge_left key left right = Ok m → r ∈ rows m →
  ∃ l, l ∈ rows left ∧ r ∈ join_row key left right l.
Proof.
  intros (_ & _ & _ & ->)%merge_left_Ok. simpl.
  intros (rs & Hr & Hrs)%elem_of_concat.
  apply list_elem_of_fmap in Hrs as (l & -> & Hl). eauto.
Qed.

Lemma join_row_cases l r :
  r ∈ join_row key left right l →
  r = relabel (left_label key left right) (columns left) l
      ∪ nan_row (map (right_label key left right) (right_cols key right))
  ∨ ∃ ref, ref ∈ rows right ∧
           key_eqb (cell l key) (cell ref key) = true ∧
           r = relabel (left_label key left right) (columns left) l
               ∪ relabel (right_label key left right) (right_cols key right) ref.
Proof.
  unfold join_row. destruct (matches key right l) as [|m ms] eqn:E.
  - intros ->%list_elem_of_singleton. by left.
  - intros (ref & -> & Href)%list_elem_of_fmap. right. exists ref.
    rewrite <- E in Href. unfold matches in Href.
    apply list_elem_of_filter in Href as [? ?]. done.
Qed.

Lemma key_not_shared : shared key left right key = false.
Proof.
  unfold shared. apply bool_decide_eq_false. intros [_ H].
  unfold right_cols in H. apply list_elem_of_filter in H as [? _]. done.
Qed.

(** The key cell of a joined row is the key cell of its left row. *)
Lemma join_row_key l r :
  key ∈ columns left → NoDup (merged_labels key left right) →
  r ∈ join_row key left right l → r !! key = Some (cell l key).
Proof.
  intros Hk Hnd Hr.
  assert (relabel (left_label key left right) (columns left) l !! key
          = Some (cell l key)) as Hl.
  { pose proof (relabel_lookup_NoDup (left_label key left right)
                  (columns left) l key) as H.
    unfold left_label at 2 in H. rewrite key_not_shared in H.
    apply H; [|done]. unfold merged_labels in Hnd.
    by apply NoDup_app in Hnd as [? _]. }
  destruct (join_row_cases l r Hr) as [->|(ref & _ & _ & ->)];
    by apply lookup_union_Some_l.
Qed.
End MergeFacts.

(** ** The Reconciler *)

Lemma reconcile_Ok top_100_df detailed_df df :
  reconcile top_100_df detailed_df = Ok df ↔
  ∃ m, merge_left col_ticker (drop_column col_name top_100_df) detailed_df = Ok m
       ∧ dropna essential_cols m = Ok df.
Proof.
  unfold reconcile.
  destruct (merge_left col_ticker (drop_column col_name top_100_df) detailed_df)
    as [m|e]; simpl; split.
  - eauto.
  - by intros (? & [= <-] & ?).
  - discriminate.
  - by intros (? & [=] & _).
Qed.

Example scenario_reconcile :
  reconcile (head 100 Scenario.ranking) Scenario.detailed = Ok Scenario.enriched.
Proof. vm_compute. reflexivity. Qed.

(** What [dropna] leaves: a present cell under each essential label. *)
Lemma reconcile_complete top_100_df detailed_df df r c :
  reconcile top_100_df detailed_df = Ok df → r ∈ rows df →
  c ∈ essential_cols → ∃ v, r !! c = Some v ∧ isna v = false.
Proof.
  intros (m & _ & Hdrop)%reconcile_Ok Hr.
  apply (dropna_rows _ _ _ r Hdrop) in Hr as [_ Hc].
  rewrite complete_spec in Hc. apply Hc.
Qed.

(** C1.  Every row of the Reconciler's output has a sector, a market
    capitalisation and a display name, none of them missing: whatever the
    ranking table and the reference table are, when the merge block yields
    a frame, each of its rows holds a non-missing cell under each of the
    three labels. *)
Theorem reconcile_rows_complete top_100_df detailed_df df r :
  reconcile top_100_df detailed_df = Ok df → r ∈ rows df →
  ∃ sector cap name,
    r !! col_sector = Some sector ∧ isna sector = false ∧
    r !! col_cap = Some cap ∧ isna cap = false ∧
    r !! col_name = Some name ∧ isna name = false.
Proof.
  intros Hrec Hr.
  destruct (reconcile_complete _ _ _ _ col_sector Hrec Hr) as (sector & ? & ?);
    [set_solver|].
  destruct (reconcile_complete _ _ _ _ col_cap Hrec Hr) as (cap & ? & ?);
    [set_solver|].
  destruct (reconcile_complete _ _ _ _ col_name Hrec Hr) as (name & ? & ?);
    [set_solver|].
  exists sector, cap, name. done.
Qed.

Lemma reconcile_rows_complete_witness :
  ∃ sector cap name,
    Scenario.row_A !! col_sector = Some sector ∧ isna sector = false ∧
    Scenario.row_A !! col_cap = Some cap ∧ isna cap = false ∧
    Scenario.row_A !! col_name = Some name ∧ isna name = false.
Proof.
  apply (reconcile_rows_complete (head 100 Scenario.ranking) Scenario.detailed
           Scenario.enriched Scenario.row_A).
  - vm_compute. reflexivity.
  - apply list_elem_of_here.
Defined.

Lemma left_label_not_name top detailed c :
  c ∈ columns (drop_column col_name top) →
  left_label col_ticker (drop_column col_name top) detailed c ≠ col_name.
Proof.
  simpl. intros [Hne _]%list_elem_of_filter. unfold left_label.
  destruct (shared _ _ _ c); [apply suffix_x_not_name | done].
Qed.

Lemma right_label_name left right c :
  right_label col_ticker left right c = col_name → c = col_name.
Proof.
  unfold right_label. destruct (shared _ _ _ c); [|done].
  intros H. by apply suffix_y_not_name in H.
Qed.

(** C2.  The display name of every Reconciler output row is the name of a
    reference record with the same identifier, and the ranking table's own
    name column has no influence at all: it is dropped before the join, so
    two ranking tables that differ in that column only give the same
    output. *)
Theorem reconcile_name_from_reference top_100_df detailed_df df :
  reconcile top_100_df detailed_df = Ok df →
  (∀ other_df,
     drop_column col_name other_df = drop_column col_name top_100_df →
     reconcile other_df detailed_df = Ok df) ∧
  (∀ r, r ∈ rows df →
     ∃ ref name,
       ref ∈ rows detailed_df ∧
       key_eqb (cell r col_ticker) (cell ref col_ticker) = true ∧
       ref !! col_name = Some name ∧
       r !! col_name = Some name).
Proof.
  intros Hrec. split.
  { intros other_df Heq. unfold reconcile in *. by rewrite Heq. }
  intros r Hr.
  destruct (reconcile_complete _ _ _ _ col_name Hrec Hr) as (name & Hname & Hna);
    [set_solver|].
  apply reconcile_Ok in Hrec as (m & Hm & Hdrop).
  apply (dropna_rows _ _ _ r Hdrop) in Hr as [Hr _].
  destruct (merge_left_rows _ _ _ _ _ Hm Hr) as (l & Hl & Hjoin).
  apply merge_left_Ok in Hm as (_ & Hkey & Hnd & _).
  pose proof (join_row_key _ _ _ _ _ Hkey Hnd Hjoin) as Hticker.
  assert (relabel (left_label col_ticker (drop_column col_name top_100_df) detailed_df)
            (columns (drop_column col_name top_100_df)) l !! col_name = None)
    as Hleft.
  { apply relabel_lookup_None. intros c Hc. by apply left_label_not_name. }
  destruct (join_row_cases _ _ _ _ _ Hjoin) as [->|(ref & Href & Heq & ->)].
  - rewrite lookup_union_r in Hname by done.
    apply nan_row_lookup in Hname. by subst name.
  - pose proof Hname as Hright. rewrite lookup_union_r in Hright by done.
    apply relabel_lookup_Some in Hright as (c & Hc & Hlabel & Hv).
    apply right_label_name in Hlabel. subst c.
    exists ref, name. split; [done|]. split.
    + unfold cell at 1. rewrite Hticker. done.
    + split; [|done]. apply cell_present; done.
Qed.

Lemma reconcile_name_from_reference_witness :
  (∀ other_df,
     drop_column col_name other_df
       = drop_column col_name (head 100 Scenario.ranking) →
     reconcile other_df Scenario.detailed = Ok Scenario.enriched) ∧
  (∀ r, r ∈ rows Scenario.enriched →
     ∃ ref name,
       ref ∈ rows Scenario.detailed ∧
       key_eqb (cell r col_ticker) (cell ref col_ticker) = true ∧
       ref !! col_name = Some name ∧
       r !! col_name = Some name).
Proof.
  apply (reconcile_name_from_reference (head 100 Scenario.ranking)
           Scenario.detailed Scenario.enriched).
  vm_compute. reflexivity.
Defined.

(** ** Running the page *)

Lemma M_bind_Ok {A B} (m : M A) (k : A → M B) s s' b :
  (m ≫= k) s = (s', Ok b) → ∃ a s1, m s = (s1, Ok a) ∧ k a s1 = (s', Ok b).
Proof.
  unfold mbind, M_bind. destruct (m s) as [s1 [a|e]]; [eauto|discriminate].
Qed.

Lemma M_bind_run {A B} (m : M A) (k : A → M B) s :
  (m ≫= k) s = match m s with
               | (s', Ok a) => k a s'
               | (s', Raise e) => (s', Raise e)
               end.
Proof. reflexivity. Qed.

Lemma lift_run {A} (r : result A) s : lift r s = (s, r).
Proof. reflexivity. Qed.

Lemma lift_Ok {A} (r : result A) s s' a :
  lift r s = (s', Ok a) → s' = s ∧ r = Ok a.
Proof. unfold lift. by intros [= -> ->]. Qed.

Lemma result_bind_Ok {A B} (r : result A) (k : A → result B) b :
  r ≫= k = Ok b → ∃ a, r = Ok a ∧ k a = Ok b.
Proof. destruct r as [a|e]; [eauto|discriminate]. Qed.

(** What a page that shows the dashboard has gone through. *)
Lemma page_Dashboard env base_df s s' df bar score_range selected filtered :
  page env base_df s = (s', Ok (Dashboard df bar score_range selected filtered)) →
  ∃ top_tickers detailed_df,
    getcol col_ticker (head 100 base_df) = Ok top_tickers ∧
    get_detailed_data_cached env top_tickers s = (s', Ok detailed_df) ∧
    reconcile (head 100 base_df) detailed_df = Ok df ∧
    empty df = false ∧
    sidebar df = Ok bar ∧
    score_range = slider env (min_value bar) (max_value bar) (default_range bar) ∧
    selected = multiselect env (all_sectors bar) (all_sectors bar) ∧
    screener df score_range selected = Ok filtered.
Proof.
  unfold page. intros H.
  apply M_bind_Ok in H as (top_tickers & s1 & [-> Htick]%lift_Ok & H).
  apply M_bind_Ok in H as (detailed_df & s2 & Hdet & H).
  apply M_bind_Ok in H as (df' & s3 & [-> Hrec]%lift_Ok & H).
  destruct (empty df') eqn:Hempty; [discriminate H|].
  apply M_bind_Ok in H as (bar' & s4 & [-> Hbar]%lift_Ok & H).
  apply M_bind_Ok in H as (filtered' & s5 & [-> Hscr]%lift_Ok & H).
  injection H as <- <- <- <- <- <-.
  exists top_tickers, detailed_df. done.
Qed.

(** ** The page when every lookup fails *)

Lemma detail_records_all_fail env tickers s :
  (∀ t, t ∈ tickers → ∃ e, ticker_info env t = Raise e) →
  snd (detail_records env tickers s) = Ok [].
Proof.
  revert s. induction tickers as [|t tickers IH]; intros s Hfail; [done|].
  destruct (Hfail t) as [e He]; [left|].
  simpl. unfold mbind, M_bind. simpl. rewrite He.
  apply IH. intros t' Ht'. apply Hfail. by right.
Qed.

(** Whenever no lookup of the first 100 tickers succeeds and the result
    is not cached, the page ends in the [KeyError] of the join: the empty
    reference frame has no ticker column. *)
Lemma page_raises_without_reference env base_df s :
  col_ticker ∈ columns base_df →
  (∀ r, r ∈ rows (head 100 base_df) →
        ∃ e, ticker_info env (cell r col_ticker) = Raise e) →
  assoc (list_eqb value_eqb) (map (λ r, cell r col_ticker) (rows (head 100 base_df)))
        (detail_cache s) = None →
  snd (page env base_df s) = Raise (KeyError [col_ticker]).
Proof.
  intros Hcol Hfail Hmiss. unfold page.
  unfold mbind at 1, M_bind at 1. unfold lift at 1, getcol.
  rewrite bool_decide_eq_true_2 by done.
  unfold mbind at 1, M_bind at 1.
  unfold get_detailed_data_cached, cache_data. rewrite Hmiss.
  unfold get_detailed_data. unfold mbind at 1, M_bind at 1.
  pose proof (detail_records_all_fail env
                (map (λ r, cell r col_ticker) (rows (head 100 base_df))) s) as Hrec.
  destruct (detail_records env _ s) as [s1 recs]. simpl in Hrec.
  rewrite Hrec.
  - reflexivity.
  - intros t (r & -> & Hr)%list_elem_of_fmap. by apply Hfail.
Qed.

Lemma detail_right_cols detailed_df :
  columns detailed_df = detail_keys →
  right_cols col_ticker detailed_df = [col_name; col_sector; col_cap].
Proof. unfold right_cols. intros ->. vm_compute. reflexivity. Qed.

(** With a ranking table that has a ticker column and no sector or
    market-capitalisation column of its own, and a reference frame built
    from at least one answer, the merge block returns a frame. *)
Lemma reconcile_returns top_100_df detailed_df :
  NoDup (columns top_100_df) →
  col_ticker ∈ columns top_100_df →
  col_sector ∉ columns top_100_df →
  col_cap ∉ columns top_100_df →
  columns detailed_df = detail_keys →
  ∃ df, reconcile top_100_df detailed_df = Ok df.
Proof.
  intros Hnd Hticker Hsector Hcap Hkeys.
  pose proof (detail_right_cols detailed_df Hkeys) as Hright.
  set (base := drop_column col_name top_100_df).
  assert (∀ c, c ∈ columns base → c ∉ [col_name; col_sector; col_cap]) as Hfresh.
  { intros c [Hne Hc]%list_elem_of_filter
      [->|[->|[->|[]%elem_of_nil]%elem_of_cons]%elem_of_cons]%elem_of_cons;
      done. }
  assert (∀ c, shared col_ticker base detailed_df c = false) as Hshared.
  { intros c. unfold shared. apply bool_decide_eq_false.
    rewrite Hright. intros [Hc Hin]. by apply (Hfresh c). }
  assert (merged_labels col_ticker base detailed_df
          = (columns base ++ [col_name; col_sector; col_cap])%list) as Hlabels.
  { unfold merged_labels. rewrite Hright. f_equal.
    - rewrite <- (map_id (columns base)) at 2. apply map_ext.
      intros c. unfold left_label. by rewrite Hshared.
    - simpl. unfold right_label. by rewrite !Hshared. }
  assert (∃ m, merge_left col_ticker base detailed_df = Ok m ∧
               columns m = (columns base ++ [col_name; col_sector; col_cap])%list)
    as (m & Hm & Hcols).
  { exists (mkDF (merged_labels col_ticker base detailed_df)
                   (concat (map (join_row col_ticker base detailed_df) (rows base)))).
    split; [|exact Hlabels]. apply merge_left_Ok.
    split; [rewrite Hkeys; left|]. split.
    { apply list_elem_of_filter. done. }
    split; [|reflexivity].
    rewrite Hlabels. apply NoDup_app. split; [by apply NoDup_filter|].
    split; [exact Hfresh|].
    apply (bool_decide_unpack (NoDup [col_name; col_sector; col_cap])).
    vm_compute. reflexivity. }
  unfold reconcile. fold base. rewrite Hm. simpl.
  eexists. apply dropna_Ok. split; [|reflexivity].
  rewrite Hcols. unfold essential_cols.
  repeat constructor; apply elem_of_app; right; set_solver.
Qed.

(** C3 (the code departs from the claim).  With the ranking file of the
    scenario and a provider that fails every lookup, the page raises
    [KeyError] on the ticker column instead of showing an empty table. *)
Theorem page_raises_when_every_lookup_fails :
  snd (main Outage.env fresh) = Raise (KeyError [col_ticker]).
Proof. vm_compute. reflexivity. Qed.

(** ** Statistics *)

Global Instance Qle_total : Total Qle.
Proof.
  intros x y. destruct (Qlt_le_dec x y) as [H|H]; [left|right]; [|done].
  by apply Qlt_le_weak.
Qed.

Global Instance Qle_transitive : Transitive Qle.
Proof. intros x y z. apply Qle_trans. Qed.

(** The list both [quantile] and [median] index into is the sorted
    rearrangement of the scores. *)
Lemma sorted_scores qs :
  StronglySorted Qle (merge_sort Qle qs) ∧ merge_sort Qle qs ≡ₚ qs.
Proof.
  split; [apply StronglySorted_merge_sort; apply _ | apply merge_sort_Permutation].
Qed.

Lemma Qfloor_half k : Qfloor (inject_Z k * (1 # 2)) = (k / 2)%Z.
Proof. unfold Qfloor. simpl. by rewrite Z.mul_1_r. Qed.

Lemma Qceiling_half k : Qceiling (inject_Z k * (1 # 2)) = (- (- k / 2))%Z.
Proof. unfold Qceiling, Qfloor. simpl. by rewrite Z.mul_1_r. Qed.

Lemma half_fraction z :
  (inject_Z (2 * z + 1) * (1 # 2) - inject_Z z == 1 # 2)%Q.
Proof.
  rewrite inject_Z_plus, inject_Z_mult.
  change (inject_Z 2) with 2%Q. change (inject_Z 1) with 1%Q. field.
Qed.

(** The 0.5-quantile by linear interpolation is the median. *)
Lemma quantile_half_median qs : is_float_of (quantile (1 # 2) qs) (median qs).
Proof.
  unfold quantile, median. destruct (merge_sort Qle qs) as [|q0 rest]; [done|].
  cbv zeta. set (sorted := q0 :: rest). set (n := length sorted).
  assert (0 < n)%nat as Hn by (subst n sorted; simpl; lia).
  rewrite Qfloor_half, Qceiling_half.
  destruct (Nat.even n) eqn:He.
  - apply Nat.even_spec in He as [m Hm].
    replace (Nat.div2 n) with m by (rewrite Hm; by rewrite Nat.div2_double).
    replace (Z.to_nat ((Z.of_nat n - 1) / 2)) with (m - 1)%nat
      by (rewrite Hm; div_lia).
    replace (Z.to_nat (- (- (Z.of_nat n - 1) / 2))) with m
      by (rewrite Hm; div_lia).
    replace ((Z.of_nat n - 1) / 2)%Z with (Z.of_nat m - 1)%Z
      by (rewrite Hm; div_lia).
    replace (Z.of_nat n - 1)%Z with (2 * (Z.of_nat m - 1) + 1)%Z by lia.
    unfold is_float_of. rewrite half_fraction. field.
  - assert (Nat.odd n = true) as Ho by (rewrite <- Nat.negb_even, He; done).
    apply Nat.odd_spec in Ho as [m Hm].
    replace (Nat.div2 n) with m
      by (rewrite Hm, Nat.add_1_r; by rewrite Nat.div2_succ_double).
    replace (Z.to_nat ((Z.of_nat n - 1) / 2)) with m by (rewrite Hm; div_lia).
    replace (Z.to_nat (- (- (Z.of_nat n - 1) / 2))) with m
      by (rewrite Hm; div_lia).
    unfold is_float_of. ring.
Qed.

Lemma filter_all {A} (P : A → Prop) `{∀ x, Decision (P x)} (l : list A) :
  Forall P l → filter P l = l.
Proof.
  induction 1 as [|x l Hx _ IH]; [done|].
  rewrite filter_cons. destruct (decide (P x)); [by rewrite IH | done].
Qed.

Lemma sorted_take_le s k x :
  StronglySorted Qle s → s !! k = Some x →
  Forall (λ q, q <= x)%Q (take (S k) s).
Proof.
  intros Hs. revert k. induction Hs as [|a s Hs IH Ha]; intros k; [done|].
  destruct k as [|k]; simpl.
  - intros [= ->]. constructor; [apply Qle_refl|]. by rewrite take_0.
  - intros Hk. constructor; [|by apply IH].
    rewrite Forall_forall in Ha. apply Ha. by eapply list_elem_of_lookup_2.
Qed.

Lemma sorted_drop_ge s k x :
  StronglySorted Qle s → s !! k = Some x →
  Forall (λ q, x <= q)%Q (drop k s).
Proof.
  intros Hs. revert k. induction Hs as [|a s Hs IH Ha]; intros k; [done|].
  destruct k as [|k]; simpl.
  - intros [= ->]. constructor; [apply Qle_refl|done].
  - by apply IH.
Qed.

Lemma count_prefix {A} (P : A → Prop) `{∀ x, Decision (P x)} (l : list A) k :
  Forall P (take k l) → (length (take k l) ≤ length (filter P l))%nat.
Proof.
  intros Hall. rewrite <- (take_drop k l) at 2.
  rewrite filter_app, length_app, (filter_all P (take k l)) by done. lia.
Qed.

Lemma count_suffix {A} (P : A → Prop) `{∀ x, Decision (P x)} (l : list A) k :
  Forall P (drop k l) → (length (drop k l) ≤ length (filter P l))%nat.
Proof.
  intros Hall. rewrite <- (take_drop k l) at 2.
  rewrite filter_app, length_app, (filter_all P (drop k l)) by done. lia.
Qed.

(** The median splits the scores: at least half of them are at most the
    median and at least half are at least the median. *)
Lemma median_is_middle qs m :
  median qs = Some m →
  (length qs ≤ 2 * length (filter (λ q, q <= m)%Q qs))%nat ∧
  (length qs ≤ 2 * length (filter (λ q, m <= q)%Q qs))%nat.
Proof.
  destruct (sorted_scores qs) as [Hsorted Hperm]. intros Hmed.
  rewrite <- (Permutation_length Hperm).
  rewrite <- (Permutation_length (filter_Permutation (λ q, q <= m)%Q _ _ Hperm)).
  rewrite <- (Permutation_length (filter_Permutation (λ q, m <= q)%Q _ _ Hperm)).
  revert Hmed. unfold median.
  destruct (merge_sort Qle qs) as [|q0 rest] eqn:Hs; [discriminate|].
  cbv zeta. set (sorted := q0 :: rest) in *. set (n := length sorted).
  assert (0 < n)%nat as Hn by (subst n sorted; simpl; lia).
  destruct (Nat.even n) eqn:He.
  - apply Nat.even_spec in He as [k Hk].
    replace (Nat.div2 n) with k by (rewrite Hk; by rewrite Nat.div2_double).
    destruct (lookup_lt_is_Some_2 sorted (k - 1)) as [a Ha]; [fold n; lia|].
    destruct (lookup_lt_is_Some_2 sorted k) as [b Hb]; [fold n; lia|].
    rewrite (nth_lookup_Some _ _ _ _ Ha), (nth_lookup_Some _ _ _ _ Hb).
    intros [= <-].
    assert (a <= b)%Q as Hab.
    { pose proof (sorted_drop_ge _ _ _ Hsorted Ha) as Hd.
      rewrite Forall_forall in Hd. apply Hd.
      apply list_elem_of_lookup. exists 1.
      rewrite lookup_drop. replace (k - 1 + 1) with k by lia. done. }
    assert (a <= (a + b) / 2)%Q as Hlo.
    { unfold Qdiv. change (/ 2)%Q with (1 # 2)%Q. lra. }
    assert ((a + b) / 2 <= b)%Q as Hhi.
    { unfold Qdiv. change (/ 2)%Q with (1 # 2)%Q. lra. }
    split.
    + pose proof (count_prefix (λ q, q <= (a + b) / 2)%Q sorted (S (k - 1))) as H.
      rewrite length_take_le in H by (fold n; lia). fold n.
      enough (S (k - 1) ≤ length (filter (λ q, q <= (a + b) / 2)%Q sorted))%nat by lia.
      apply H. eapply Forall_impl; [by apply sorted_take_le|].
      intros q Hq. simpl in Hq. by eapply Qle_trans.
    + pose proof (count_suffix (λ q, (a + b) / 2 <= q)%Q sorted k) as H.
      rewrite length_drop in H. fold n in H |- *.
      enough (n - k ≤ length (filter (λ q, (a + b) / 2 <= q)%Q sorted))%nat by lia.
      apply H. eapply Forall_impl; [by apply sorted_drop_ge|].
      intros q Hq. simpl in Hq. by eapply Qle_trans.
  - assert (Nat.odd n = true) as Ho by (rewrite <- Nat.negb_even, He; done).
    apply Nat.odd_spec in Ho as [k Hk].
    replace (Nat.div2 n) with k
      by (rewrite Hk, Nat.add_1_r; by rewrite Nat.div2_succ_double).
    destruct (lookup_lt_is_Some_2 sorted k) as [a Ha]; [fold n; lia|].
    rewrite (nth_lookup_Some _ _ _ _ Ha). intros [= <-]. split.
    + pose proof (count_prefix (λ q, q <= a)%Q sorted (S k)) as H.
      rewrite length_take_le in H by (fold n; lia). fold n.
      enough (S k ≤ length (filter (λ q, q <= a)%Q sorted))%nat by lia.
      apply H. by apply sorted_take_le.
    + pose proof (count_suffix (λ q, a <= q)%Q sorted k) as H.
      rewrite length_drop in H. fold n in H |- *.
      enough (n - k ≤ length (filter (λ q, a <= q)%Q sorted))%nat by lia.
      apply H. by apply sorted_drop_ge.
Qed.

Lemma Qmax_cases x y :
  (Qmax x y = y ∧ (x <= y)%Q) ∨ (Qmax x y = x ∧ (y <= x)%Q).
Proof.
  unfold Qmax. destruct (Qle_bool x y) eqn:E.
  - left. by apply Qle_bool_iff in E.
  - right. split; [done|]. destruct (Qlt_le_dec y x) as [H|H].
    + by apply Qlt_le_weak.
    + apply Qle_bool_iff in H. congruence.
Qed.

Lemma foldr_Qmax_maximum q qs : is_maximum (foldr Qmax q qs) (q :: qs).
Proof.
  induction qs as [|x qs [Hin Hle]]; simpl.
  - split; [left|]. intros ? ->%list_elem_of_singleton. apply Qle_refl.
  - destruct (Qmax_cases x (foldr Qmax q qs)) as [[-> Hx]|[-> Hx]]; split.
    + apply elem_of_cons in Hin as [->|?]; [left | right; by right].
    + intros y [->|[->|Hy]%elem_of_cons]%elem_of_cons.
      * apply Hle. left.
      * done.
      * apply Hle. by right.
    + right. left.
    + intros y [->|[->|Hy]%elem_of_cons]%elem_of_cons.
      * eapply Qle_trans; [|exact Hx]. apply Hle. left.
      * apply Qle_refl.
      * eapply Qle_trans; [|exact Hx]. apply Hle. by right.
Qed.

(** [max] skips nothing but missing cells: it is NaN on no number and the
    greatest number otherwise. *)
Lemma series_max_spec qs :
  match series_max qs with
  | VNum m => is_maximum m qs
  | VNaN => qs = []
  | _ => False
  end.
Proof. destruct qs as [|q qs]; [done|]. apply foldr_Qmax_maximum. Qed.

Lemma numbers_Ok cells qs : numbers cells = Ok qs → qs = omap float_value cells.
Proof.
  revert qs. induction cells as [|v cells IH]; intros qs; simpl.
  - by intros [= <-].
  - destruct v; simpl; try (by apply IH); [|discriminate].
    intros (qs' & Hqs' & [= <-])%result_bind_Ok. by rewrite (IH qs').
Qed.

Lemma isin_spec values v :
  isin values v = true ↔ ∃ w, w ∈ values ∧ value_eqb v w = true.
Proof.
  unfold isin. rewrite existsb_exists. split.
  - intros (w & Hw & H). exists w. by rewrite list_elem_of_In.
  - intros (w & Hw & H). exists w. by rewrite <- list_elem_of_In.
Qed.

Lemma isin_unique cells v : isin (unique cells) v = isin cells v.
Proof.
  apply eq_true_iff_eq. rewrite !isin_spec.
  induction cells as [|c cells IH]; [done|]. simpl. split.
  - intros (w & [->|Hw]%elem_of_cons & H).
    + exists c. split; [left|done].
    + apply list_elem_of_filter in Hw as [_ Hw].
      destruct IH as [IH _]. destruct IH as (w' & ? & ?); [eauto|].
      exists w'. split; [by right|done].
  - intros (w & [->|Hw]%elem_of_cons & H).
    + exists c. split; [left|done].
    + destruct IH as [_ IH]. destruct IH as (w' & Hw' & H'); [eauto|].
      destruct (value_eqb c w') eqn:E.
      * exists c. split; [left|].
        rewrite (value_eqb_sym c w') in E. by eapply value_eqb_trans.
      * exists w'. split; [|done]. right. by apply list_elem_of_filter.
Qed.

Lemma isin_false values v :
  isin values v = false ↔ ∀ w, w ∈ values → value_eqb v w = false.
Proof.
  split.
  - intros H w Hw. destruct (value_eqb v w) eqn:E; [|done].
    assert (isin values v = true) by (apply isin_spec; eauto). congruence.
  - intros H. destruct (isin values v) eqn:E; [|done].
    apply isin_spec in E as (w & Hw & E). rewrite H in E; done.
Qed.

Lemma distinct_filter (P : value → Prop) `{∀ v, Decision (P v)} cells :
  distinct cells → distinct (filter P cells).
Proof.
  induction cells as [|v cells IH]; [done|]. intros [Hv Hd].
  rewrite filter_cons. destruct (decide (P v)); [|by apply IH].
  split; [|by apply IH]. apply isin_false. intros w [_ Hw]%list_elem_of_filter.
  rewrite isin_false in Hv. by apply Hv.
Qed.

Lemma distinct_unique cells : distinct (unique cells).
Proof.
  induction cells as [|v cells IH]; [done|]. simpl. split.
  - apply isin_false. by intros w [? _]%list_elem_of_filter.
  - by apply distinct_filter.
Qed.

(** ** The sidebar defaults *)

Lemma present_scores_numbers df :
  omap float_value (map (λ r, cell r col_overall) (rows df)) = present_scores df.
Proof.
  unfold present_scores. induction (rows df) as [|r rs IH]; [done|].
  simpl. destruct (float_value (cell r col_overall)); [f_equal|]; exact IH.
Qed.

Lemma sidebar_Ok df bar :
  sidebar df = Ok bar →
  col_overall ∈ columns df ∧ col_sector ∈ columns df ∧
  bar = mkSidebar (series_min (present_scores df)) (series_max (present_scores df))
          (quantile (1 # 2) (present_scores df), series_max (present_scores df))
          (unique (map (λ r, cell r col_sector) (rows df))).
Proof.
  unfold sidebar.
  intros (cells & [Hc ->]%getcol_Ok & H)%result_bind_Ok.
  apply result_bind_Ok in H as (scores & Hscores%numbers_Ok & H).
  apply result_bind_Ok in H as (sectors & [Hs ->]%getcol_Ok & [= <-]).
  rewrite present_scores_numbers in Hscores. by subst scores.
Qed.



Example scenario_page :
  snd (main Scenario.env fresh)
  = Ok (Dashboard Scenario.enriched Scenario.sidebar_expected
          (VNum (13 # 2), Scenario.num 8) [VStr "Tech"; VStr "Finance"]
          Scenario.filtered).
Proof. vm_compute. reflexivity. Qed.

(** C4.  The default criteria are computed from the enriched frame, that
    is from the output of the merge block, after the incomplete rows are
    gone: the default lower bound is the median of its overall scores,
    the default upper bound their maximum, and the default selection the
    distinct sectors of its rows (defaults 6.5, 8 and Tech, Finance for
    the enriched scores 5 and 8 of the scenario). *)
Theorem default_criteria_of_enriched
    env base_df s s' df bar score_range selected filtered :
  page env base_df s
    = (s', Ok (Dashboard df bar score_range selected filtered)) →
  (∃ detailed_df, reconcile (head 100 base_df) detailed_df = Ok df) ∧
  is_float_of (fst (default_range bar)) (median (present_scores df)) ∧
  match snd (default_range bar) with
  | VNum m => is_maximum m (present_scores df)
  | VNaN => present_scores df = []
  | _ => False
  end ∧
  distinct (all_sectors bar) ∧
  (∀ v, isin (all_sectors bar) v = true ↔
        ∃ r, r ∈ rows df ∧ value_eqb v (cell r col_sector) = true) ∧
  score_range = slider env (min_value bar) (max_value bar) (default_range bar) ∧
  selected = multiselect env (all_sectors bar) (all_sectors bar).
Proof.
  intros (tickers & detailed_df & _ & _ & Hrec & _ & Hbar & Hrange & Hsel & _)
    %page_Dashboard.
  apply sidebar_Ok in Hbar as (_ & _ & ->). simpl.
  split; [eauto|]. split; [apply quantile_half_median|].
  split; [apply series_max_spec|]. split; [apply distinct_unique|].
  split; [|done].
  intros v. rewrite isin_unique, isin_spec. split.
  - intros (w & (r & -> & Hr)%list_elem_of_fmap & H). eauto.
  - intros (r & Hr & H). exists (cell r col_sector). split; [|done].
    apply list_elem_of_fmap. eauto.
Qed.

Lemma default_criteria_of_enriched_witness :
  (∃ detailed_df,
     reconcile (head 100 Scenario.ranking) detailed_df = Ok Scenario.enriched) ∧
  is_float_of (VNum (13 # 2)) (median (present_scores Scenario.enriched)) ∧
  is_maximum (inject_Z 8) (present_scores Scenario.enriched) ∧
  distinct [VStr "Tech"; VStr "Finance"] ∧
  (∀ v, isin [VStr "Tech"; VStr "Finance"] v = true ↔
        ∃ r, r ∈ rows Scenario.enriched ∧ value_eqb v (cell r col_sector) = true) ∧
  (VNum (13 # 2), Scenario.num 8)
    = slider Scenario.env (Scenario.num 5) (Scenario.num 8)
             (VNum (13 # 2), Scenario.num 8) ∧
  [VStr "Tech"; VStr "Finance"]
    = multiselect Scenario.env [VStr "Tech"; VStr "Finance"]
                  [VStr "Tech"; VStr "Finance"].
Proof.
  apply (default_criteria_of_enriched Scenario.env Scenario.ranking fresh
           (fst (page Scenario.env Scenario.ranking fresh))
           Scenario.enriched Scenario.sidebar_expected
           (VNum (13 # 2), Scenario.num 8) [VStr "Tech"; VStr "Finance"]
           Scenario.filtered).
  vm_compute. reflexivity.
Defined.

(** ** The Screener *)




Lemma select_screen lo hi selected rs above below :
  series_map (λ v, cell_ge v (VNum lo)) (map (λ r, cell r col_overall) rs)
    = Ok above →
  series_map (λ v, cell_le v (VNum hi)) (map (λ r, cell r col_overall) rs)
    = Ok below →
  select (and3 above below
            (map (isin selected) (map (λ r, cell r col_sector) rs))) rs
  = filter (λ r, passesb lo hi selected r = true) rs.
Proof.
  revert above below. induction rs as [|r rs IH]; intros above below.
  - by intros [= <-] [= <-].
  - simpl.
    intros (a & Ha & (above' & Habove & [= <-])%result_bind_Ok)%result_bind_Ok.
    intros (b & Hb & (below' & Hbelow & [= <-])%result_bind_Ok)%result_bind_Ok.
    simpl. rewrite (IH _ _ Habove Hbelow). rewrite filter_cons.
    assert (a && b && isin selected (cell r col_sector)
            = passesb lo hi selected r) as ->.
    { unfold passesb.
      destruct (cell r col_overall) as [| |q|]; simpl in Ha, Hb;
        try discriminate; injection Ha as <-; injection Hb as <-; done. }
    destruct (passesb lo hi selected r); case_decide; done.
Qed.



(** ** The price history *)

(** C6 as stated fails: a lookup that comes back with an empty result is
    not turned into [None]. *)
Lemma empty_history_is_not_absent :
  ¬ (∀ env ticker s history,
       ticker_history env ticker = Ok history → rows history = [] →
       snd (get_price_history env ticker s) = Ok None).
Proof.
  intros H.
  specialize (H Delisted.env (VStr "D") fresh Delisted.no_trading_days
                eq_refl eq_refl).
  vm_compute in H. discriminate H.
Qed.

(** C6, amended.  [get_price_history] returns [None] exactly when the
    lookup raises; whatever series the lookup returns, a zero-length one
    included, is handed on as it is, so that the caller, which tests for
    [None], draws the chart for it and shows the warning only after an
    exception. *)
Theorem price_history_absent_iff_raises env ticker s :
  (snd (get_price_history env ticker s) = Ok None ↔
   ∃ e, ticker_history env ticker = Raise e) ∧
  (∀ history, ticker_history env ticker = Ok history →
     snd (get_price_history env ticker s) = Ok (Some history) ∧
     (assoc value_eqb ticker (price_cache s) = None →
      snd (price_panel env ticker s) = Ok (PriceChart history))) ∧
  (∀ e, ticker_history env ticker = Raise e →
     assoc value_eqb ticker (price_cache s) = None →
     snd (price_panel env ticker s) = Ok PriceWarning).
Proof.
  unfold price_panel, get_price_history_cached, cache_data, get_price_history.
  unfold mbind, M_bind, log_history, mret, M_ret. simpl.
  destruct (ticker_history env ticker) as [h|e]; simpl.
  - split; [|split].
    + split; [discriminate|]. by intros [? [=]].
    + intros ? [= <-]. split; [done|]. by intros ->.
    + discriminate.
  - split; [|split].
    + split; [eauto|done].
    + discriminate.
    + by intros _ _ ->.
Qed.

Lemma price_history_absent_iff_raises_witness :
  (snd (get_price_history Delisted.env (VStr "D") fresh)
     = Ok (Some Delisted.no_trading_days) ∧
   snd (price_panel Delisted.env (VStr "D") fresh)
     = Ok (PriceChart Delisted.no_trading_days)) ∧
  snd (price_panel Delisted.env (VStr "E") fresh) = Ok PriceWarning.
Proof.
  split.
  - destruct (price_history_absent_iff_raises Delisted.env (VStr "D") fresh)
      as (_ & Hsome & _).
    destruct (Hsome Delisted.no_trading_days eq_refl) as [Hget Hpanel].
    split; [exact Hget | exact (Hpanel eq_refl)].
  - destruct (price_history_absent_iff_raises Delisted.env (VStr "E") fresh)
      as (_ & _ & Hnone).
    exact (Hnone (OtherError "no such ticker") eq_refl eq_refl).
Defined.

(** ** The RankingLoader *)

Example ragged_load :
  snd (load_data Ragged.env "ragged.csv" fresh) = Ok (Some Ragged.loaded).
Proof. vm_compute. reflexivity. Qed.

Example missing_file :
  snd (load_data Ragged.env "nowhere.csv" fresh) = Ok None.
Proof. vm_compute. reflexivity. Qed.







(** ** The ResultCache *)

Section CacheFacts.
Context {K V : Type}.
Variable eqb : K → K → bool.
Variable get : Session → list (K * V).
Variable set : list (K * V) → Session → Session.
Hypothesis eqb_refl : ∀ k, eqb k k = true.
Hypothesis get_set : ∀ c s, get (set c s) = c.

(** Once a call has returned, the same call returns the same value again
    and leaves the session as it is, whatever function is decorated. *)
Lemma cache_data_again (f g : K → M V) k s s1 v :
  cache_data eqb get set f k s = (s1, Ok v) →
  cache_data eqb get set g k s1 = (s1, Ok v).
Proof.
  unfold cache_data. destruct (assoc eqb k (get s)) as [v'|] eqn:Hhit.
  - intros [= <- <-]. by rewrite Hhit.
  - destruct (f k s) as [s' [v'|e]]; [|discriminate].
    intros [= <- <-]. rewrite get_set. simpl. by rewrite eqb_refl.
Qed.

(** A call changes the session only through the decorated function and
    the store. *)
Lemma cache_data_state (f : K → M V) k s :
  fst (cache_data eqb get set f k s) = s ∨
  fst (cache_data eqb get set f k s) = fst (f k s) ∨
  ∃ v, fst (cache_data eqb get set f k s)
       = set ((k, v) :: get (fst (f k s))) (fst (f k s)).
Proof.
  unfold cache_data. destruct (assoc eqb k (get s)); [by left|].
  destruct (f k s) as [s' [v'|e]]; simpl; eauto.
Qed.
End CacheFacts.

Lemma load_data_reads env file_path s :
  csv_reads (fst (load_data env file_path s)) = (csv_reads s ++ [file_path])%list.
Proof.
  unfold load_data, mbind, M_bind, log_read. simpl.
  by destruct (read_csv env file_path) as [df|[]].
Qed.

(** C8.  [load_data] behind [st.cache_data] is idempotent: when a call
    with a path has returned, a second call with the same path returns the
    very same value and leaves the session, its log of file reads
    included, unchanged, even if the file has changed in between; the
    first call itself read the file at most once. *)
Theorem load_data_cached_idempotent env env' file_path s s1 records :
  load_data_cached env file_path s = (s1, Ok records) →
  load_data_cached env' file_path s1 = (s1, Ok records) ∧
  csv_reads (fst (load_data_cached env' file_path s1)) = csv_reads s1 ∧
  (csv_reads s1 = csv_reads s ∨ csv_reads s1 = (csv_reads s ++ [file_path])%list).
Proof.
  intros Hfirst.
  assert (load_data_cached env' file_path s1 = (s1, Ok records)) as Hsecond.
  { unfold load_data_cached in *.
    eapply cache_data_again; [apply String.eqb_refl|done|exact Hfirst]. }
  split; [done|]. split; [by rewrite Hsecond|].
  pose proof (cache_data_state String.eqb load_cache set_load_cache
                (load_data env) file_path s) as Hstate.
  change (cache_data String.eqb load_cache set_load_cache (load_data env))
    with (load_data_cached env) in Hstate.
  rewrite Hfirst in Hstate. simpl in Hstate.
  destruct Hstate as [->|[->|[v ->]]].
  - by left.
  - right. apply load_data_reads.
  - right. simpl. apply load_data_reads.
Qed.

Lemma load_data_cached_idempotent_witness :
  load_data_cached Ragged.env ranking_path
    (fst (load_data_cached Scenario.env ranking_path fresh))
  = (fst (load_data_cached Scenario.env ranking_path fresh),
     Ok (Some Scenario.ranking)) ∧
  csv_reads (fst (load_data_cached Ragged.env ranking_path
                    (fst (load_data_cached Scenario.env ranking_path fresh))))
  = csv_reads (fst (load_data_cached Scenario.env ranking_path fresh)) ∧
  (csv_reads (fst (load_data_cached Scenario.env ranking_path fresh))
     = csv_reads fresh ∨
   csv_reads (fst (load_data_cached Scenario.env ranking_path fresh))
     = (csv_reads fresh ++ [ranking_path])%list).
Proof.
  apply (load_data_cached_idempotent Scenario.env Ragged.env ranking_path fresh).
  vm_compute. reflexivity.
Defined.

(** ** The first 100 rows *)

Lemma detail_records_log env tickers s :
  info_requests (fst (detail_records env tickers s))
  = (info_requests s ++ tickers)%list.
Proof.
  revert s. induction tickers as [|t tickers IH]; intros s; simpl.
  - by rewrite app_nil_r.
  - unfold mbind at 1, M_bind at 1. unfold log_info at 1. simpl.
    destruct (ticker_info env t) as [info|e].
    + unfold mbind, M_bind.
      match goal with |- context [detail_records env tickers ?s0] =>
        specialize (IH s0); destruct (detail_records env tickers s0) as [s2 [recs|e]]
      end; simpl in *; rewrite IH; by rewrite <- app_assoc.
    + rewrite IH. simpl. by rewrite <- app_assoc.
Qed.

Lemma get_detailed_data_log env tickers s :
  info_requests (fst (get_detailed_data env tickers s))
  = (info_requests s ++ tickers)%list.
Proof.
  unfold get_detailed_data, mbind, M_bind.
  pose proof (detail_records_log env tickers s) as H.
  by destruct (detail_records env tickers s) as [s1 [recs|e]].
Qed.

Lemma get_detailed_data_cached_log env tickers s :
  info_requests (fst (get_detailed_data_cached env tickers s)) = info_requests s ∨
  info_requests (fst (get_detailed_data_cached env tickers s))
  = (info_requests s ++ tickers)%list.
Proof.
  destruct (cache_data_state (list_eqb value_eqb) detail_cache set_detail_cache
              (get_detailed_data env) tickers s) as [H|[H|[v H]]];
    unfold get_detailed_data_cached; rewrite H.
  - by left.
  - right. apply get_detailed_data_log.
  - right. simpl. apply get_detailed_data_log.
Qed.

(** The page touches the session in the reference fetch only. *)
Lemma page_state env base_df s :
  fst (page env base_df s) = s ∨
  fst (page env base_df s)
  = fst (get_detailed_data_cached env
           (map (λ r, cell r col_ticker) (rows (head 100 base_df))) s).
Proof.
  unfold page. rewrite M_bind_run, lift_run. unfold getcol.
  case_bool_decide; [|by left]. right. rewrite M_bind_run.
  destruct (get_detailed_data_cached env _ s) as [s1 [detailed_df|e]]; [|done].
  rewrite M_bind_run, lift_run.
  destruct (reconcile (head 100 base_df) detailed_df) as [df|e]; [|done].
  destruct (empty df); [done|]. rewrite M_bind_run, lift_run.
  destruct (sidebar df) as [bar|e]; [|done]. rewrite M_bind_run, lift_run.
  by destruct (screener df _ _) as [filtered|e].
Qed.

Lemma head_rows n df r :
  r ∈ rows (head n df) ↔ ∃ i, i < n ∧ rows df !! i = Some r.
Proof. simpl. rewrite elem_of_take. split; intros (i & ? & ?); eauto. Qed.

(** Every row of the Reconciler's output carries the ticker of a row of
    the ranking side. *)
Lemma reconcile_row_origin top_100_df detailed_df df o :
  reconcile top_100_df detailed_df = Ok df → o ∈ rows df →
  ∃ r, r ∈ rows top_100_df ∧ o !! col_ticker = Some (cell r col_ticker).
Proof.
  intros (m & Hm & Hdrop)%reconcile_Ok Ho.
  apply (dropna_rows _ _ _ o Hdrop) in Ho as [Ho _].
  destruct (merge_left_rows _ _ _ _ _ Hm Ho) as (l & Hl & Hjoin).
  apply merge_left_Ok in Hm as (_ & Hkey & Hnd & _).
  rewrite (join_row_key _ _ _ _ _ Hkey Hnd Hjoin).
  simpl in Hl. apply list_elem_of_fmap in Hl as (r & -> & Hr).
  exists r. split; [done|]. unfold cell. by rewrite lookup_delete_ne.
Qed.

Lemma select_sub {A} (mask : list bool) (xs : list A) x :
  x ∈ select mask xs → x ∈ xs.
Proof.
  revert mask. induction xs as [|y xs IH]; intros [|b mask]; simpl;
    try (by intros ?%elem_of_nil).
  destruct b.
  - intros [->|?]%elem_of_cons; [left | right; eauto].
  - intros ?. right. eauto.
Qed.

Lemma screener_rows_sub df score_range selected out r :
  screener df score_range selected = Ok out → r ∈ rows out → r ∈ rows df.
Proof.
  unfold screener.
  intros (cells & _ & H)%result_bind_Ok.
  apply result_bind_Ok in H as (above & _ & H).
  apply result_bind_Ok in H as (below & _ & H).
  apply result_bind_Ok in H as (sectors & _ & [= <-]).
  simpl. apply select_sub.
Qed.

Example long_ranking_requests :
  length (rows Long.ranking) = 101 ∧
  info_requests (fst (main Long.env fresh))
  = map (λ n, Scenario.num (Z.of_nat n)) (seq 0 100).
Proof. split; vm_compute; reflexivity. Qed.

(** C9.  The pipeline works on the first 100 rows of the loaded ranking
    table only.  Whatever the page does, every identifier it newly asks
    the reference fetcher for is the ticker of one of the rows 0 to 99;
    and every row of the enriched frame and of the filtered frame carries
    the ticker of one of these rows.  An identifier that occurs beyond
    row 100 only is thus neither requested nor shown. *)
Theorem page_uses_first_100_rows env base_df s :
  (∀ t, t ∈ info_requests (fst (page env base_df s)) →
     t ∈ info_requests s ∨
     ∃ i r, i < 100 ∧ rows base_df !! i = Some r ∧ t = cell r col_ticker) ∧
  (∀ df bar score_range selected filtered o,
     snd (page env base_df s)
       = Ok (Dashboard df bar score_range selected filtered) →
     o ∈ rows df ∨ o ∈ rows filtered →
     ∃ i r, i < 100 ∧ rows base_df !! i = Some r ∧
            o !! col_ticker = Some (cell r col_ticker)).
Proof.
  split.
  - intros t Ht. destruct (page_state env base_df s) as [H|H];
      rewrite H in Ht; [by left|].
    destruct (get_detailed_data_cached_log env
                (map (λ r, cell r col_ticker) (rows (head 100 base_df))) s)
      as [H'|H']; rewrite H' in Ht; [by left|].
    apply elem_of_app in Ht as [?|Ht]; [by left|]. right.
    apply list_elem_of_fmap in Ht as (r & -> & Hr).
    apply head_rows in Hr as (i & Hi & Hr). eauto.
  - intros df bar score_range selected filtered o Hpage Ho.
    destruct (page env base_df s) as [s' res] eqn:Hrun. simpl in Hpage.
    subst res.
    apply page_Dashboard in Hrun
      as (tickers & detailed_df & _ & _ & Hrec & _ & _ & _ & _ & Hscr).
    assert (o ∈ rows df) as Hdf.
    { destruct Ho as [?|Ho]; [done|]. by eapply screener_rows_sub. }
    destruct (reconcile_row_origin _ _ _ _ Hrec Hdf) as (r & Hr & Hticker).
    apply head_rows in Hr as (i & Hi & Hr). eauto.
Qed.

Lemma page_uses_first_100_rows_witness :
  (Scenario.num 7 ∈ info_requests fresh ∨
   ∃ i r, i < 100 ∧ rows Long.ranking !! i = Some r ∧
          Scenario.num 7 = cell r col_ticker) ∧
  (∃ i r, i < 100 ∧ rows Scenario.ranking !! i = Some r ∧
          Scenario.row_B !! col_ticker = Some (cell r col_ticker)).
Proof.
  split.
  - destruct (page_uses_first_100_rows Long.env Long.ranking fresh)
      as [Hrequests _].
    apply Hrequests. vm_compute. do 7 right. left.
  - destruct (page_uses_first_100_rows Scenario.env Scenario.ranking fresh)
      as [_ Hrows].
    apply (Hrows Scenario.enriched Scenario.sidebar_expected
             (VNum (13 # 2), Scenario.num 8) [VStr "Tech"; VStr "Finance"]
             Scenario.filtered Scenario.row_B).
    + vm_compute. reflexivity.
    + right. apply list_elem_of_here.
Defined.

(** ** The ReferenceDataFetcher *)

Lemma detail_records_result env tickers s :
  snd (detail_records env tickers s) = Ok (omap (lookup_record env) tickers).
Proof.
  revert s. induction tickers as [|t tickers IH]; intros s; [done|].
  simpl. rewrite M_bind_run. unfold log_info at 1. unfold lookup_record at 1.
  destruct (ticker_info env t) as [info|e]; [|apply IH].
  rewrite M_bind_run.
  match goal with |- context [detail_records env tickers ?s0] =>
    specialize (IH s0); destruct (detail_records env tickers s0) as [s2 res]
  end.
  simpl in IH. by subst res.
Qed.

Lemma first_seen_known seen ks :
  (∀ k, k ∈ ks → k ∈ seen) → first_seen seen ks = [].
Proof.
  induction ks as [|k ks IH]; intros H; [done|]. simpl.
  rewrite bool_decide_eq_true_2 by (apply H; left).
  apply IH. intros k' Hk'. apply H. by right.
Qed.

Lemma first_seen_prefix seen ks rest :
  NoDup ks → (∀ k, k ∈ ks → k ∉ seen) →
  (∀ k, k ∈ rest → k ∈ ks ∨ k ∈ seen) →
  first_seen seen (ks ++ rest) = ks.
Proof.
  revert seen. induction ks as [|k ks IH]; intros seen Hnd Hnew Hrest.
  - simpl. apply first_seen_known. intros k Hk.
    destruct (Hrest k Hk) as [?%elem_of_nil|?]; done.
  - apply NoDup_cons in Hnd as [Hk Hnd]. simpl.
    rewrite bool_decide_eq_false_2 by (apply Hnew; left).
    f_equal. apply IH; [done| |].
    + intros k' Hk' [->|Hs]%elem_of_cons; [done|].
      by apply (Hnew k'); [right|].
    + intros k' Hk'. destruct (Hrest k' Hk') as [[->|?]%elem_of_cons|?].
      * right. left.
      * by left.
      * right. by right.
Qed.

Lemma detail_keys_NoDup : NoDup detail_keys.
Proof. apply (bool_decide_unpack (NoDup detail_keys)). vm_compute. reflexivity. Qed.

Lemma lookup_record_keys env t d :
  lookup_record env t = Some d → map fst d = detail_keys.
Proof.
  unfold lookup_record. destruct (ticker_info env t); [|discriminate].
  by intros [= <-].
Qed.

Lemma record_keys_detail env tickers :
  omap (lookup_record env) tickers ≠ [] →
  record_keys (omap (lookup_record env) tickers) = detail_keys.
Proof.
  assert (∀ d, d ∈ omap (lookup_record env) tickers → map fst d = detail_keys)
    as Hkeys.
  { intros d (t & _ & Ht)%list_elem_of_omap. by eapply lookup_record_keys. }
  destruct (omap (lookup_record env) tickers) as [|d recs]; [done|].
  intros _. unfold record_keys. simpl. rewrite (Hkeys d) by left.
  apply first_seen_prefix.
  - apply detail_keys_NoDup.
  - intros k _. apply not_elem_of_nil.
  - intros k (ks & Hk & Hks)%elem_of_concat. left.
    apply list_elem_of_fmap in Hks as (d' & -> & Hd').
    rewrite (Hkeys d') in Hk by (by right). done.
Qed.

Lemma frame_row_lookup recs keys d k :
  NoDup keys → k ∈ keys →
  ∃ v, frame_row recs keys d !! k = Some v ∧ stored_as (record_cell d k) v.
Proof.
  intros Hnd Hk. eexists. split.
  - unfold frame_row. apply elem_of_list_to_map_1.
    + rewrite <- list_fmap_compose.
      by replace (fst ∘ _) with (@id string) by done; rewrite list_fmap_id.
    + apply list_elem_of_fmap. exists k. split; [reflexivity|done].
  - unfold stored_as, store. destruct (record_cell d k); auto.
    destruct (float_column _); auto.
Qed.

Lemma stored_as_None v : stored_as VNone v → isna v = true.
Proof. by intros [->|[_ ->]]. Qed.

Example incomplete_answer_kept :
  snd (get_detailed_data Partial.env Partial.tickers fresh)
  = Ok Partial.detailed.
Proof. vm_compute. reflexivity. Qed.

(** ... and dropped by the merge block afterwards. *)
Example incomplete_answer_dropped :
  values <$> reconcile (head 100 Scenario.ranking) Partial.detailed
  = Ok [[VStr "A"; Scenario.num 5; VStr "Alpha"; VStr "Tech"; Scenario.num 100]].
Proof. vm_compute. reflexivity. Qed.

(** C10.  The ReferenceDataFetcher returns a frame, and it leaves an
    identifier out only when its lookup raises.  For every identifier
    whose lookup returns, the frame has a row holding the identifier and,
    under name, sector and market capitalisation, what the answer has
    under [shortName], [sector] and [marketCap], [None] standing for a key
    the answer lacks; so a field the answer lacks is a missing cell of
    that row.  An identifier of the list without any row is one whose
    lookup raised. *)
Theorem fetch_omits_only_failed_lookups env tickers s :
  ∃ s' df,
    get_detailed_data env tickers s = (s', Ok df) ∧
    ∀ t, t ∈ tickers →
      (∀ info, ticker_info env t = Ok info →
         ∃ r ticker name sector cap,
           r ∈ rows df ∧
           r !! col_ticker = Some ticker ∧ stored_as t ticker ∧
           r !! col_name = Some name ∧
           stored_as (info_get info "shortName") name ∧
           r !! col_sector = Some sector ∧
           stored_as (info_get info "sector") sector ∧
           r !! col_cap = Some cap ∧
           stored_as (info_get info "marketCap") cap ∧
           (info !! "shortName" = None → isna name = true) ∧
           (info !! "sector" = None → isna sector = true) ∧
           (info !! "marketCap" = None → isna cap = true)) ∧
      ((∀ r, r ∈ rows df → ∀ ticker, r !! col_ticker = Some ticker →
                            ¬ stored_as t ticker) →
       ∃ e, ticker_info env t = Raise e).
Proof.
  pose proof (detail_records_result env tickers s) as Hrecs.
  unfold get_detailed_data. rewrite M_bind_run.
  destruct (detail_records env tickers s) as [s' res]. simpl in Hrecs.
  subst res. eexists _, _. split; [reflexivity|].
  assert (∀ t info, t ∈ tickers → ticker_info env t = Ok info →
            ∃ r ticker name sector cap,
              r ∈ rows (frame_of_records (omap (lookup_record env) tickers)) ∧
              r !! col_ticker = Some ticker ∧ stored_as t ticker ∧
              r !! col_name = Some name ∧
              stored_as (info_get info "shortName") name ∧
              r !! col_sector = Some sector ∧
              stored_as (info_get info "sector") sector ∧
              r !! col_cap = Some cap ∧
              stored_as (info_get info "marketCap") cap) as Hrow.
  { intros t info Ht Hinfo.
    assert (detail_record t info ∈ omap (lookup_record env) tickers) as Hrec.
    { apply list_elem_of_omap. exists t. split; [done|].
      unfold lookup_record. by rewrite Hinfo. }
    assert (omap (lookup_record env) tickers ≠ []) as Hne.
    { intros Hnil. rewrite Hnil in Hrec. by apply elem_of_nil in Hrec. }
    pose proof (record_keys_detail env tickers Hne) as Hkeys.
    set (recs := omap (lookup_record env) tickers) in *.
    pose proof (λ k, frame_row_lookup recs detail_keys (detail_record t info) k
                       detail_keys_NoDup) as Hcell.
    destruct (Hcell col_ticker) as (ticker & ? & ?); [set_solver|].
    destruct (Hcell col_name) as (name & ? & ?); [set_solver|].
    destruct (Hcell col_sector) as (sector & ? & ?); [set_solver|].
    destruct (Hcell col_cap) as (cap & ? & ?); [set_solver|].
    exists (frame_row recs detail_keys (detail_record t info)),
           ticker, name, sector, cap.
    split; [|done]. unfold frame_of_records. simpl. rewrite Hkeys.
    apply list_elem_of_fmap. eauto. }
  intros t Ht. split.
  - intros info Hinfo.
    destruct (Hrow t info Ht Hinfo)
      as (r & ticker & name & sector & cap & Hr & ? & ? & ? & Hname & ?
          & Hsector & ? & Hcap).
    exists r, ticker, name, sector, cap. repeat (split; [done|]).
    unfold info_get in Hname, Hsector, Hcap.
    split; [|split]; intros Hnone; apply stored_as_None.
    + by rewrite Hnone in Hname.
    + by rewrite Hnone in Hsector.
    + by rewrite Hnone in Hcap.
  - intros Hnone. destruct (ticker_info env t) as [info|e] eqn:Hinfo; [|eauto].
    destruct (Hrow t info Ht Hinfo) as (r & ticker & ? & ? & ? & Hr & Hk & Hs & _).
    destruct (Hnone r Hr ticker Hk Hs).
Qed.

Lemma fetch_omits_only_failed_lookups_witness :
  (∃ r ticker name sector cap,
     r ∈ rows Partial.detailed ∧
     r !! col_ticker = Some ticker ∧ stored_as (VStr "B") ticker ∧
     r !! col_name = Some name ∧ stored_as (VStr "Beta") name ∧
     r !! col_sector = Some sector ∧ isna sector = true ∧
     r !! col_cap = Some cap ∧ isna cap = true) ∧
  (∃ e, ticker_info Partial.env (VStr "C") = Raise e).
Proof.
  destruct (fetch_omits_only_failed_lookups Partial.env Partial.tickers fresh)
    as (s' & df & Hrun & Hall).
  assert (df = Partial.detailed) as ->.
  { pose proof incomplete_answer_kept as E. rewrite Hrun in E.
    by injection E. }
  split.
  - destruct (Hall (VStr "B")) as [Hsome _]; [right; left|].
    destruct (Hsome {[ "shortName" := VStr "Beta" ]} eq_refl)
      as (r & ticker & name & sector & cap & Hr & Hticker & Hst & Hname & Hsn
          & Hsector & _ & Hcap & _ & _ & Hnas & Hnac).
    exists r, ticker, name, sector, cap.
    repeat (split; [done|]). split; [exact (Hnas eq_refl)|].
    split; [done | exact (Hnac eq_refl)].
  - destruct (Hall (VStr "C")) as [_ Hnone]; [do 2 right; left|].
    apply Hnone.
    intros r [->|[->|[]%elem_of_nil]%elem_of_cons]%elem_of_cons ticker
      [= <-] [[=]|[[=] _]].
Defined.

(** * Further properties of the script *)

(** ** Files that are missing or unreadable *)

Lemma assoc_head {K V} (eqb : K → K → bool) k (v : V) store :
  eqb k k = true → assoc eqb k ((k, v) :: store) = Some v.
Proof. intros H. simpl. by rewrite H. Qed.

(** X1.  A ranking file that is not there is no error of the page: the
    script shows nothing, asks the provider nothing, and the missing file
    is remembered in the cache.  Every other exception of [pd.read_csv]
    escapes [load_data] and the script, and is not remembered: the cache
    is left as it was and only the read is logged. *)
Theorem main_without_ranking env s :
  assoc String.eqb ranking_path (load_cache s) = None →
  (read_csv env ranking_path = Raise FileNotFoundError →
     snd (main env s) = Ok NoRanking ∧
     info_requests (fst (main env s)) = info_requests s ∧
     assoc String.eqb ranking_path (load_cache (fst (main env s))) = Some None) ∧
  (∀ e, read_csv env ranking_path = Raise e → e ≠ FileNotFoundError →
     snd (main env s) = Raise e ∧
     info_requests (fst (main env s)) = info_requests s ∧
     load_cache (fst (main env s)) = load_cache s ∧
     csv_reads (fst (main env s)) = (csv_reads s ++ [ranking_path])%list).
Proof.
  intros Hmiss. unfold main. rewrite M_bind_run.
  unfold load_data_cached, cache_data. rewrite Hmiss.
  unfold load_data. rewrite M_bind_run. unfold log_read. split.
  - intros ->. simpl. done.
  - intros e -> Hne. by destruct e.
Qed.

Lemma main_without_ranking_witness :
  (snd (main Ragged.env fresh) = Ok NoRanking ∧
   info_requests (fst (main Ragged.env fresh)) = info_requests fresh ∧
   assoc String.eqb ranking_path (load_cache (fst (main Ragged.env fresh)))
     = Some None) ∧
  (snd (main Broken.env fresh)
     = Raise (OtherError "EmptyDataError: No columns to parse from file") ∧
   info_requests (fst (main Broken.env fresh)) = info_requests fresh ∧
   load_cache (fst (main Broken.env fresh)) = load_cache fresh ∧
   csv_reads (fst (main Broken.env fresh))
     = (csv_reads fresh ++ [ranking_path])%list).
Proof.
  split.
  - apply (main_without_ranking Ragged.env fresh); reflexivity.
  - apply (main_without_ranking Broken.env fresh); [reflexivity..|discriminate].
Defined.

(** ** The reference fetch: its frame and its effects *)

Lemma detail_records_session env tickers s :
  fst (detail_records env tickers s)
  = mkSession (csv_reads s) (info_requests s ++ tickers) (history_requests s)
              (load_cache s) (detail_cache s) (price_cache s).
Proof.
  revert s. induction tickers as [|t tickers IH]; intros s; simpl.
  - rewrite app_nil_r. by destruct s.
  - rewrite M_bind_run. unfold log_info at 1.
    destruct (ticker_info env t) as [info|e].
    + rewrite M_bind_run.
      match goal with |- context [detail_records env tickers ?s0] =>
        specialize (IH s0); destruct (detail_records env tickers s0) as [s2 [recs|e]]
      end; simpl in *; rewrite IH; by rewrite <- app_assoc.
    + rewrite IH. simpl. by rewrite <- app_assoc.
Qed.

Lemma get_detailed_data_run env tickers s :
  get_detailed_data env tickers s
  = (mkSession (csv_reads s) (info_requests s ++ tickers) (history_requests s)
               (load_cache s) (detail_cache s) (price_cache s),
     Ok (frame_of_records (omap (lookup_record env) tickers))).
Proof.
  unfold get_detailed_data. rewrite M_bind_run.
  pose proof (detail_records_session env tickers s) as Hs.
  pose proof (detail_records_result env tickers s) as Hr.
  destruct (detail_records env tickers s) as [s1 res]. simpl in Hs, Hr.
  by subst.
Qed.

Lemma answered_records env tickers :
  Forall2 (λ t d, ∃ info, ticker_info env t = Ok info ∧ d = detail_record t info)
          (filter (λ t, answered env t = true) tickers)
          (omap (lookup_record env) tickers).
Proof.
  induction tickers as [|t tickers IH]; [constructor|].
  rewrite filter_cons.
  destruct (ticker_info env t) as [info|e] eqn:E.
  - assert (answered env t = true) as Ha by (unfold answered; by rewrite E).
    assert (lookup_record env t = Some (detail_record t info)) as Hl
      by (unfold lookup_record; by rewrite E).
    rewrite decide_True by done. simpl. rewrite Hl.
    constructor; [eauto|done].
  - assert (answered env t ≠ true) as Ha by (unfold answered; by rewrite E).
    assert (lookup_record env t = None) as Hl
      by (unfold lookup_record; by rewrite E).
    rewrite decide_False by done. simpl. by rewrite Hl.
Qed.

(** X2.  The frame of the ReferenceDataFetcher has one row for each
    ticker of the list whose lookup returned, in the order of the list,
    holding that ticker, and no other row; so it has at most as many rows
    as the list has tickers and no identifier the list has not. *)
Theorem reference_rows_follow_answers env tickers s :
  ∃ s' df,
    get_detailed_data env tickers s = (s', Ok df) ∧
    Forall2 (λ t r, ∃ v, r !! col_ticker = Some v ∧ stored_as t v)
            (filter (λ t, answered env t = true) tickers) (rows df) ∧
    (length (rows df) ≤ length tickers)%nat.
Proof.
  eexists _, _. split; [apply get_detailed_data_run|].
  pose proof (answered_records env tickers) as Hrecs.
  assert (Forall2 (λ t r, ∃ v, r !! col_ticker = Some v ∧ stored_as t v)
            (filter (λ t, answered env t = true) tickers)
            (rows (frame_of_records (omap (lookup_record env) tickers)))) as H.
  { unfold frame_of_records. simpl.
    destruct (decide (omap (lookup_record env) tickers = [])) as [Hnil|Hne].
    { rewrite Hnil in *. simpl.
      apply Forall2_nil_inv_r in Hrecs. rewrite Hrecs. constructor. }
    rewrite record_keys_detail by done.
    apply Forall2_fmap_r. eapply Forall2_impl; [exact Hrecs|].
    intros t d (info & _ & ->). simpl.
    destruct (frame_row_lookup (omap (lookup_record env) tickers) detail_keys
                (detail_record t info) col_ticker detail_keys_NoDup)
      as (v & Hv & Hst); [set_solver|]. eauto. }
  split; [exact H|].
  rewrite <- (Forall2_length _ _ _ H). apply length_filter.
Qed.

(** X3.  The ReferenceDataFetcher asks the provider once for every ticker
    of the list, in the order of the list and whatever the earlier
    lookups did, and does nothing else to the session: no file is read,
    no price history is asked for and no cache is written. *)
Theorem reference_fetch_effects env tickers s :
  fst (get_detailed_data env tickers s)
  = mkSession (csv_reads s) (info_requests s ++ tickers) (history_requests s)
              (load_cache s) (detail_cache s) (price_cache s).
Proof. by rewrite get_detailed_data_run. Qed.

(** ** Running the script again *)

Lemma list_eqb_refl {A} (eqb : A → A → bool) xs :
  (∀ x, eqb x x = true) → list_eqb eqb xs xs = true.
Proof. intros H. induction xs as [|x xs IH]; simpl; [done|]. by rewrite H, IH. Qed.

Section CacheHits.
Context {K V : Type}.
Variable eqb : K → K → bool.
Variable get : Session → list (K * V).
Variable set : list (K * V) → Session → Session.
Hypothesis eqb_refl : ∀ k, eqb k k = true.
Hypothesis get_set : ∀ c s, get (set c s) = c.

Lemma cache_data_hit (f : K → M V) k s v :
  assoc eqb k (get s) = Some v → cache_data eqb get set f k s = (s, Ok v).
Proof. unfold cache_data. by intros ->. Qed.

Lemma cache_data_stored (f : K → M V) k s s1 v :
  cache_data eqb get set f k s = (s1, Ok v) → assoc eqb k (get s1) = Some v.
Proof.
  unfold cache_data. destruct (assoc eqb k (get s)) as [v'|] eqn:Hhit.
  - by intros [= <- <-].
  - destruct (f k s) as [s' [v'|e]]; [|discriminate].
    intros [= <- <-]. rewrite get_set. by apply assoc_head.
Qed.
End CacheHits.

(** The page is the reference fetch followed by [render]. *)
Lemma page_render env base_df s :
  page env base_df s
  = match getcol col_ticker (head 100 base_df) with
    | Ok top_tickers =>
        match get_detailed_data_cached env top_tickers s with
        | (s1, Ok detailed_df) => (s1, render env (head 100 base_df) detailed_df)
        | (s1, Raise e) => (s1, Raise e)
        end
    | Raise e => (s, Raise e)
    end.
Proof.
  unfold page, render. rewrite M_bind_run, lift_run.
  destruct (getcol col_ticker (head 100 base_df)) as [tickers|e]; [|done].
  rewrite M_bind_run.
  destruct (get_detailed_data_cached env tickers s) as [s1 [detailed_df|e]]; [|done].
  rewrite M_bind_run, lift_run.
  destruct (reconcile (head 100 base_df) detailed_df) as [df|e]; [|done]. simpl.
  destruct (empty df); [done|]. rewrite M_bind_run, lift_run.
  destruct (sidebar df) as [bar|e]; [|done]. simpl.
  rewrite M_bind_run, lift_run.
  by destruct (screener df _ _) as [filtered|e].
Qed.

(** The cached reference fetch always returns a frame, keeps the frame in
    its store and leaves the store of [load_data] alone. *)
Lemma get_detailed_data_cached_run env tickers s :
  ∃ s1 detailed_df,
    get_detailed_data_cached env tickers s = (s1, Ok detailed_df) ∧
    assoc (list_eqb value_eqb) tickers (detail_cache s1) = Some detailed_df ∧
    load_cache s1 = load_cache s.
Proof.
  destruct (get_detailed_data_cached env tickers s) as [s1 res] eqn:Hrun.
  assert (∃ d, res = Ok d ∧ load_cache s1 = load_cache s) as (d & -> & Hload).
  { revert Hrun. unfold get_detailed_data_cached, cache_data.
    destruct (assoc _ tickers (detail_cache s)) as [d|].
    - intros [= <- <-]. eauto.
    - rewrite get_detailed_data_run. intros [= <- <-]. eauto. }
  exists s1, d. split; [done|]. split; [|done].
  eapply (cache_data_stored (list_eqb value_eqb) detail_cache set_detail_cache);
    [|done|exact Hrun].
  intros k. apply list_eqb_refl, value_eqb_refl.
Qed.

Lemma render_widgets env env' top_100_df detailed_df :
  slider env' = slider env → multiselect env' = multiselect env →
  render env' top_100_df detailed_df = render env top_100_df detailed_df.
Proof. intros Hs Hm. unfold render. by rewrite Hs, Hm. Qed.

(** X4.  Once the ranking file has been loaded, running the script again
    in the session the run has left, with the same choices in the
    sidebar, shows the same page or ends in the same exception and leaves
    the session untouched: no file is read and the provider is not asked
    again, whatever the file and the provider have become.  Lookups that
    failed are thus not retried, and the [KeyError] of a run in which
    every lookup failed comes back although the provider answers again. *)
Theorem rerun_repeats_outcome env env' s s0 base :
  slider env' = slider env → multiselect env' = multiselect env →
  load_data_cached env ranking_path s = (s0, Ok base) →
  main env' (fst (main env s)) = main env s.
Proof.
  intros Hs Hm Hload.
  pose proof (cache_data_stored String.eqb load_cache set_load_cache
                String.eqb_refl (λ _ _, eq_refl) _ _ _ _ _ Hload) as Hstored.
  assert (∀ s1, load_cache s1 = load_cache s0 →
            load_data_cached env' ranking_path s1 = (s1, Ok base)) as Hagain.
  { intros s1 Hs1. apply cache_data_hit. by rewrite Hs1. }
  assert (∀ s1 r, main env s = (s1, r) → main env' s1 = (s1, r)) as Hmain.
  2:{ destruct (main env s) as [s1 r] eqn:E. by apply Hmain. }
  intros s2 r. unfold main. rewrite !M_bind_run, Hload.
  destruct base as [base_df|].
  - rewrite page_render.
    destruct (getcol col_ticker (head 100 base_df)) as [tickers|e] eqn:Hcol.
    + destruct (get_detailed_data_cached_run env tickers s0)
        as (s1 & d & Hrun & Hkept & Hl).
      rewrite Hrun. intros [= <- <-]. rewrite (Hagain s1 Hl).
      rewrite page_render, Hcol.
      rewrite (cache_data_hit _ _ _ _ _ _ _ Hkept
               : get_detailed_data_cached env' tickers s1 = (s1, Ok d)).
      by rewrite (render_widgets env env').
    + intros [= <- <-]. rewrite (Hagain s0 eq_refl).
      by rewrite page_render, Hcol.
  - intros [= <- <-]. by rewrite (Hagain s0 eq_refl).
Qed.

Lemma rerun_repeats_outcome_witness :
  main Scenario.env (fst (main Outage.env fresh)) = main Outage.env fresh.
Proof.
  apply (rerun_repeats_outcome Outage.env Scenario.env fresh
           (fst (load_data_cached Outage.env ranking_path fresh))
           (Some Scenario.ranking));
    reflexivity.
Defined.

Example outage_is_remembered :
  snd (main Scenario.env (fst (main Outage.env fresh)))
    = Raise (KeyError [col_ticker]) ∧
  info_requests (fst (main Scenario.env (fst (main Outage.env fresh))))
    = [VStr "A"; VStr "B"; VStr "C"].
Proof. split; vm_compute; reflexivity. Qed.

(** ** What the Reconciler keeps *)

(** With a ranking table that has no sector and no market-capitalisation
    column of its own, no label is shared and none gets a suffix. *)
Lemma plain_labels top_100_df detailed_df :
  col_sector ∉ columns top_100_df → col_cap ∉ columns top_100_df →
  columns detailed_df = detail_keys →
  (∀ c, c ∈ columns (drop_column col_name top_100_df) →
        c ∉ [col_name; col_sector; col_cap]) ∧
  (∀ c, shared col_ticker (drop_column col_name top_100_df) detailed_df c = false) ∧
  merged_labels col_ticker (drop_column col_name top_100_df) detailed_df
  = (columns (drop_column col_name top_100_df)
     ++ [col_name; col_sector; col_cap])%list.
Proof.
  intros Hsector Hcap Hkeys.
  pose proof (detail_right_cols detailed_df Hkeys) as Hright.
  set (base := drop_column col_name top_100_df).
  assert (∀ c, c ∈ columns base → c ∉ [col_name; col_sector; col_cap]) as Hfresh.
  { intros c [Hne Hc]%list_elem_of_filter
      [->|[->|[->|[]%elem_of_nil]%elem_of_cons]%elem_of_cons]%elem_of_cons;
      done. }
  assert (∀ c, shared col_ticker base detailed_df c = false) as Hshared.
  { intros c. unfold shared. apply bool_decide_eq_false.
    rewrite Hright. intros [Hc Hin]. by apply (Hfresh c). }
  split; [done|]. split; [done|].
  unfold merged_labels. rewrite Hright. f_equal.
  - rewrite <- (map_id (columns base)) at 2. apply map_ext.
    intros c. unfold left_label. by rewrite Hshared.
  - simpl. unfold right_label. by rewrite !Hshared.
Qed.

(** X5.  The Reconciler drops nothing that is complete and changes no
    score.  With a ranking table that has a ticker column and no sector or
    market-capitalisation column of its own, and a reference frame from
    the fetcher: for every ranking row and every reference row with an
    equal ticker and a present name, sector and market capitalisation,
    the output has a row with these three cells of the reference row and,
    under every column of the ranking table but its name column, the cell
    of the ranking row. *)
Theorem reconcile_keeps_complete top_100_df detailed_df l ref :
  NoDup (columns top_100_df) →
  col_ticker ∈ columns top_100_df →
  col_sector ∉ columns top_100_df →
  col_cap ∉ columns top_100_df →
  columns detailed_df = detail_keys →
  l ∈ rows top_100_df → ref ∈ rows detailed_df →
  key_eqb (cell l col_ticker) (cell ref col_ticker) = true →
  isna (cell ref col_name) = false →
  isna (cell ref col_sector) = false →
  isna (cell ref col_cap) = false →
  ∃ df o,
    reconcile top_100_df detailed_df = Ok df ∧ o ∈ rows df ∧
    o !! col_name = Some (cell ref col_name) ∧
    o !! col_sector = Some (cell ref col_sector) ∧
    o !! col_cap = Some (cell ref col_cap) ∧
    ∀ c, c ∈ columns top_100_df → c ≠ col_name → o !! c = Some (cell l c).
Proof.
  intros Hnd Hticker Hsector Hcap Hkeys Hl Href Hkey Hname Hsec Hcp.
  destruct (plain_labels _ _ Hsector Hcap Hkeys) as (Hfresh & Hshared & Hlabels).
  pose proof (detail_right_cols detailed_df Hkeys) as Hright.
  set (base := drop_column col_name top_100_df) in *.
  assert (NoDup (merged_labels col_ticker base detailed_df)) as Hnodup.
  { rewrite Hlabels. apply NoDup_app. split; [by apply NoDup_filter|].
    split; [exact Hfresh|].
    apply (bool_decide_unpack (NoDup [col_name; col_sector; col_cap])).
    vm_compute. reflexivity. }
  assert (col_ticker ∈ columns base) as Hbt by (by apply list_elem_of_filter).
  set (l0 := delete col_name l).
  assert (∀ c, c ≠ col_name → cell l0 c = cell l c) as Hl0.
  { intros c Hc. unfold cell, l0. by rewrite lookup_delete_ne. }
  set (o := relabel (left_label col_ticker base detailed_df) (columns base) l0
            ∪ relabel (right_label col_ticker base detailed_df)
                (right_cols col_ticker detailed_df) ref).
  assert (o ∈ join_row col_ticker base detailed_df l0) as Hjoin.
  { unfold join_row.
    assert (ref ∈ matches col_ticker detailed_df l0) as Hm.
    { apply list_elem_of_filter. split; [|done]. by rewrite Hl0. }
    destruct (matches col_ticker detailed_df l0) as [|m ms];
      [by apply elem_of_nil in Hm|].
    apply list_elem_of_fmap. eauto. }
  assert (∀ c, c ∈ columns base → o !! c = Some (cell l0 c)) as Hleft.
  { intros c Hc. apply lookup_union_Some_l.
    pose proof (relabel_lookup_NoDup (left_label col_ticker base detailed_df)
                  (columns base) l0 c) as H.
    unfold left_label at 2 in H. rewrite Hshared in H. apply H; [|done].
    unfold merged_labels in Hnodup. by apply NoDup_app in Hnodup as [? _]. }
  assert (∀ c, c ∈ [col_name; col_sector; col_cap] → o !! c = Some (cell ref c))
    as Hrightc.
  { intros c Hc. unfold o. rewrite lookup_union_r.
    - pose proof (relabel_lookup_NoDup (right_label col_ticker base detailed_df)
                    (right_cols col_ticker detailed_df) ref c) as H.
      unfold right_label at 2 in H. rewrite Hshared in H. apply H.
      + unfold merged_labels in Hnodup. by apply NoDup_app in Hnodup as (_ & _ & ?).
      + by rewrite Hright.
    - apply relabel_lookup_None. intros c' Hc'. unfold left_label.
      rewrite Hshared. intros ->. by apply (Hfresh c). }
  exists (mkDF (merged_labels col_ticker base detailed_df)
            (filter (λ r, complete essential_cols r = true)
               (concat (map (join_row col_ticker base detailed_df) (rows base))))),
         o.
  split.
  { apply reconcile_Ok. eexists. split.
    - apply merge_left_Ok. split; [rewrite Hkeys; left|]. done.
    - apply dropna_Ok. split; [|reflexivity].
      change (Forall (λ c, c ∈ merged_labels col_ticker base detailed_df)
                essential_cols).
      rewrite Hlabels. unfold essential_cols. repeat constructor; apply elem_of_app; right; set_solver. }
  split.
  { cbn [rows]. apply list_elem_of_filter. split.
    - apply complete_spec. intros c Hc. exists (cell ref c).
      unfold essential_cols in Hc.
      apply elem_of_cons in Hc as [->|Hc];
        [split; [apply Hrightc; right; left | done]|].
      apply elem_of_cons in Hc as [->|Hc];
        [split; [apply Hrightc; do 2 right; left | done]|].
      apply list_elem_of_singleton in Hc as ->.
      split; [apply Hrightc; left | done].
    - apply elem_of_concat. eexists. split; [exact Hjoin|].
      apply list_elem_of_fmap. exists l0. split; [done|].
      simpl. apply list_elem_of_fmap. eauto. }
  split; [apply Hrightc; set_solver|].
  split; [apply Hrightc; set_solver|].
  split; [apply Hrightc; set_solver|].
  intros c Hc Hne. rewrite <- Hl0 by done. apply Hleft.
  by apply list_elem_of_filter.
Qed.

Local Ltac decide_closed :=
  match goal with
  | |- ?P => apply (bool_decide_unpack P); vm_compute; reflexivity
  end.

Lemma reconcile_keeps_complete_witness :
  ∃ df o,
    reconcile (head 100 Scenario.ranking) Scenario.detailed = Ok df ∧
    o ∈ rows df ∧
    o !! col_name = Some (cell Reference.row_B col_name) ∧
    o !! col_sector = Some (cell Reference.row_B col_sector) ∧
    o !! col_cap = Some (cell Reference.row_B col_cap) ∧
    ∀ c, c ∈ columns (head 100 Scenario.ranking) → c ≠ col_name →
         o !! c = Some (cell (Scenario.ranking_row "B" "old B" 8) c).
Proof.
  apply (reconcile_keeps_complete (head 100 Scenario.ranking) Scenario.detailed
           (Scenario.ranking_row "B" "old B" 8) Reference.row_B);
    try decide_closed; try reflexivity.
  - vm_compute. right. left.
  - vm_compute. right. left.
Defined.

(** ** Ranking files the page cannot show *)

Lemma essential_not_suffixed c c' suffix :
  c = col_sector ∨ c = col_cap ∨ c = col_overall →
  suffix = "_x" ∨ suffix = "_y" →
  c' +:+ suffix ≠ c.
Proof.
  intros Hc Hb H. apply (f_equal last_byte) in H.
  destruct Hb as [->| ->]; rewrite last_byte_app in H;
    destruct Hc as [->|[->| ->]]; discriminate H.
Qed.

Lemma merge_left_Raise key left right e :
  merge_left key left right = Raise e → e = KeyError [key] ∨ e = MergeError.
Proof.
  unfold merge_left. repeat case_bool_decide; simpl; intros [= <-]; auto.
Qed.

Lemma dropna_Raise labels df c :
  c ∈ labels → c ∉ columns df →
  ∃ missing, dropna labels df = Raise (KeyError missing) ∧ c ∈ missing.
Proof.
  intros Hc Hn. unfold dropna.
  assert (c ∈ filter (λ c, c ∉ columns df) labels) as Hin
    by (by apply list_elem_of_filter).
  destruct (filter (λ c, c ∉ columns df) labels) as [|m ms];
    [by apply elem_of_nil in Hin|]. eauto.
Qed.

(** A label of the merged frame is a label of one side, or one with a
    suffix. *)
Lemma merged_label_origin key left right c :
  c ∈ merged_labels key left right →
  (c ∈ columns left ∧ shared key left right c = false) ∨
  (c ∈ right_cols key right ∧ shared key left right c = false) ∨
  ∃ c', c = c' +:+ "_x" ∨ c = c' +:+ "_y".
Proof.
  unfold merged_labels.
  intros [(c' & -> & Hc')%list_elem_of_fmap|(c' & -> & Hc')%list_elem_of_fmap]
    %elem_of_app.
  - unfold left_label. destruct (shared key left right c') eqn:E; eauto.
  - unfold right_label. destruct (shared key left right c') eqn:E; eauto 6.
Qed.

(** X6.  A ranking file that has a sector or a market-capitalisation
    column of its own cannot be enriched: the join gives both columns a
    suffix, so that [dropna] does not find the label and the merge block
    raises, whatever the lookups returned. *)
Theorem own_enrichment_column_raises top_100_df detailed_df c :
  c = col_sector ∨ c = col_cap →
  c ∈ columns top_100_df → c ∈ columns detailed_df →
  ∃ e, reconcile top_100_df detailed_df = Raise e ∧
       (e = KeyError [col_ticker] ∨ e = MergeError ∨
        ∃ missing, e = KeyError missing ∧ c ∈ missing).
Proof.
  intros Hc Htop Hdet. unfold reconcile.
  set (base := drop_column col_name top_100_df).
  destruct (merge_left col_ticker base detailed_df) as [m|e] eqn:Hm.
  { apply merge_left_Ok in Hm as (_ & _ & _ & ->). unfold mbind, result_bind.
    destruct (dropna_Raise essential_cols
                (mkDF (merged_labels col_ticker base detailed_df)
                   (concat (map (join_row col_ticker base detailed_df) (rows base))))
                c) as (missing & -> & Hin).
    - destruct Hc as [->| ->]; set_solver.
    - simpl. intros Hin.
      assert (shared col_ticker base detailed_df c = true) as Hshared.
      { apply bool_decide_eq_true. split.
        - apply list_elem_of_filter. split; [|done]. by destruct Hc as [->| ->].
        - apply list_elem_of_filter. split; [|done]. by destruct Hc as [->| ->]. }
      destruct (merged_label_origin _ _ _ _ Hin)
        as [[_ E]|[[_ E]|(c' & [E|E])]]; try congruence.
      + symmetry in E. revert E. apply essential_not_suffixed; [tauto|by left].
      + symmetry in E. revert E. apply essential_not_suffixed; [tauto|by right].
    - eexists. split; [reflexivity|]. right. right. eauto. }
  simpl. exists e. split; [done|].
  destruct (merge_left_Raise _ _ _ _ Hm) as [->| ->]; auto.
Qed.

Lemma own_enrichment_column_raises_witness :
  ∃ e, reconcile (head 100 Sectored.ranking) Scenario.detailed = Raise e ∧
       (e = KeyError [col_ticker] ∨ e = MergeError ∨
        ∃ missing, e = KeyError missing ∧ col_sector ∈ missing).
Proof.
  apply (own_enrichment_column_raises (head 100 Sectored.ranking)
           Scenario.detailed col_sector).
  - by left.
  - vm_compute. right. left.
  - vm_compute. do 2 right. left.
Defined.

Example own_sector_column :
  reconcile (head 100 Sectored.ranking) Scenario.detailed
  = Raise (KeyError [col_sector]).
Proof. vm_compute. reflexivity. Qed.

Lemma reference_frame_columns env tickers :
  columns (frame_of_records (omap (lookup_record env) tickers)) = [] ∨
  columns (frame_of_records (omap (lookup_record env) tickers)) = detail_keys.
Proof.
  destruct (decide (omap (lookup_record env) tickers = [])) as [E|E].
  - left. by rewrite E.
  - right. simpl. by apply record_keys_detail.
Qed.

(** The overall score is a column of the enriched frame only if one of
    the two sides has it. *)
Lemma reconcile_overall_origin top_100_df detailed_df df :
  reconcile top_100_df detailed_df = Ok df →
  col_overall ∈ columns df →
  col_overall ∈ columns top_100_df ∨ col_overall ∈ columns detailed_df.
Proof.
  intros (m & Hm & (_ & ->)%dropna_Ok)%reconcile_Ok. simpl.
  apply merge_left_Ok in Hm as (_ & _ & _ & ->). simpl. intros Hin.
  destruct (merged_label_origin _ _ _ _ Hin)
    as [[Hc _]|[[Hc _]|(c' & [E|E])]].
  - left. simpl in Hc. by apply list_elem_of_filter in Hc as [_ ?].
  - right. unfold right_cols in Hc. by apply list_elem_of_filter in Hc as [_ ?].
  - symmetry in E. exfalso. revert E.
    apply essential_not_suffixed; [tauto|by left].
  - symmetry in E. exfalso. revert E.
    apply essential_not_suffixed; [tauto|by right].
Qed.

(** X7.  A ranking file without the overall-score column loads, but the
    page never gets to the dashboard: on a reference fetch that is not
    cached it ends in an exception or in the empty-frame warning, and as
    soon as the merge block leaves a row the slider raises [KeyError] on
    the overall-score label. *)
Theorem page_needs_overall_score env base_df s :
  col_overall ∉ columns base_df →
  assoc (list_eqb value_eqb)
        (map (λ r, cell r col_ticker) (rows (head 100 base_df)))
        (detail_cache s) = None →
  (∀ df bar score_range selected filtered,
     snd (page env base_df s)
       ≠ Ok (Dashboard df bar score_range selected filtered)) ∧
  (∀ df,
     col_ticker ∈ columns base_df →
     reconcile (head 100 base_df)
       (frame_of_records
          (omap (lookup_record env)
             (map (λ r, cell r col_ticker) (rows (head 100 base_df)))))
       = Ok df →
     empty df = false →
     snd (page env base_df s) = Raise (KeyError [col_overall])).
Proof.
  intros Hmissing Hmiss. rewrite page_render. unfold getcol.
  case_bool_decide as Hticker; [|split; [done|by intros ? ?]].
  set (tickers := map (λ r, cell r col_ticker) (rows (head 100 base_df))) in *.
  unfold get_detailed_data_cached, cache_data. rewrite Hmiss.
  rewrite get_detailed_data_run. simpl.
  set (detailed_df := frame_of_records (omap (lookup_record env) tickers)).
  assert (∀ df, reconcile (head 100 base_df) detailed_df = Ok df →
                sidebar df = Raise (KeyError [col_overall])) as Hbar.
  { intros df Hrec. unfold sidebar, getcol.
    rewrite (bool_decide_eq_false_2 (col_overall ∈ columns df)); [reflexivity|].
    intros Hin.
    destruct (reconcile_overall_origin _ _ _ Hrec Hin) as [Ht|Hd];
      [exact (Hmissing Ht)|].
    destruct (reference_frame_columns env tickers) as [E|E];
      fold detailed_df in E; rewrite E in Hd.
    - by apply elem_of_nil in Hd.
    - revert Hd. apply (bool_decide_unpack (col_overall ∉ detail_keys)).
      vm_compute. reflexivity. }
  split.
  - intros df bar score_range selected filtered. unfold render.
    destruct (reconcile (head 100 base_df) detailed_df) as [df'|e] eqn:Hrec;
      [|done]. simpl.
    destruct (empty df'); [done|]. by rewrite (Hbar df').
  - intros df _ Hrec Hempty. unfold render. rewrite Hrec. simpl.
    by rewrite Hempty, (Hbar df).
Qed.

Lemma page_needs_overall_score_witness :
  (∀ df bar score_range selected filtered,
     snd (page Unscored.env Unscored.ranking fresh)
       ≠ Ok (Dashboard df bar score_range selected filtered)) ∧
  snd (page Unscored.env Unscored.ranking fresh) = Raise (KeyError [col_overall]).
Proof.
  destruct (page_needs_overall_score Unscored.env Unscored.ranking fresh)
    as [Hnever Hraise].
  - vm_compute. intros [?|[?|[]%elem_of_nil]%elem_of_cons]%elem_of_cons;
      discriminate.
  - reflexivity.
  - split; [exact Hnever|].
    eapply Hraise.
    + vm_compute. left.
    + vm_compute. reflexivity.
    + reflexivity.
Defined.

(** ** The sidebar and the default view *)

Lemma Qmin_cases x y :
  (Qmin x y = x ∧ (x <= y)%Q) ∨ (Qmin x y = y ∧ (y <= x)%Q).
Proof.
  unfold Qmin. destruct (Qle_bool x y) eqn:E.
  - left. by apply Qle_bool_iff in E.
  - right. split; [done|]. destruct (Qlt_le_dec y x) as [H|H].
    + by apply Qlt_le_weak.
    + apply Qle_bool_iff in H. congruence.
Qed.

Lemma foldr_Qmin_minimum q qs :
  foldr Qmin q qs ∈ q :: qs ∧ ∀ x, x ∈ q :: qs → (foldr Qmin q qs <= x)%Q.
Proof.
  induction qs as [|y qs [Hin Hle]]; simpl.
  - split; [left|]. intros ? ->%list_elem_of_singleton. apply Qle_refl.
  - destruct (Qmin_cases y (foldr Qmin q qs)) as [[-> Hy]|[-> Hy]]; split.
    + right. left.
    + intros x [->|[->|Hx]%elem_of_cons]%elem_of_cons.
      * eapply Qle_trans; [exact Hy|]. apply Hle. left.
      * apply Qle_refl.
      * eapply Qle_trans; [exact Hy|]. apply Hle. by right.
    + apply elem_of_cons in Hin as [->|?]; [left | right; by right].
    + intros x [->|[->|Hx]%elem_of_cons]%elem_of_cons.
      * apply Hle. left.
      * done.
      * apply Hle. by right.
Qed.

Lemma filter_nonempty {A} (P : A → Prop) `{∀ x, Decision (P x)} (l : list A) :
  (0 < length (filter P l))%nat → ∃ x, x ∈ l ∧ P x.
Proof.
  destruct (filter P l) as [|x xs] eqn:E; simpl; [lia|]. intros _.
  assert (x ∈ filter P l) as Hx by (rewrite E; left).
  apply list_elem_of_filter in Hx as [? ?]. eauto.
Qed.

Lemma median_None qs : median qs = None → qs = [].
Proof.
  unfold median. pose proof (merge_sort_Permutation Qle qs) as Hperm.
  destruct (merge_sort Qle qs) as [|q0 rest].
  - intros _. by apply Permutation_nil.
  - cbv zeta. by destruct (Nat.even _).
Qed.

(** The median lies between two of the scores. *)
Lemma median_between qs m :
  median qs = Some m →
  ∃ a b, a ∈ qs ∧ b ∈ qs ∧ (a <= m)%Q ∧ (m <= b)%Q.
Proof.
  intros Hm. destruct (median_is_middle qs m Hm) as [Hle Hge].
  assert (0 < length qs)%nat as Hlen.
  { destruct qs as [|q qs]; [|simpl; lia]. discriminate Hm. }
  destruct (filter_nonempty (λ q, q <= m)%Q qs) as (a & Ha & Ham); [lia|].
  destruct (filter_nonempty (λ q, m <= q)%Q qs) as (b & Hb & Hmb); [lia|].
  eauto 6.
Qed.

(** X8.  The bounds the slider is given bracket its default: when some
    row has an overall score, the lower bound is the least and the upper
    bound the greatest score, every score lies between them, and so does
    the default lower end, the median; the default upper end is the upper
    bound.  Without any score all four are NaN. *)
Theorem slider_default_within_bounds df bar :
  sidebar df = Ok bar →
  (present_scores df = [] →
     min_value bar = VNaN ∧ max_value bar = VNaN ∧
     default_range bar = (VNaN, VNaN)) ∧
  (present_scores df ≠ [] →
     ∃ lo mid hi,
       min_value bar = VNum lo ∧ max_value bar = VNum hi ∧
       default_range bar = (VNum mid, VNum hi) ∧
       lo ∈ present_scores df ∧ hi ∈ present_scores df ∧
       (lo <= mid)%Q ∧ (mid <= hi)%Q ∧
       ∀ q, q ∈ present_scores df → (lo <= q)%Q ∧ (q <= hi)%Q).
Proof.
  intros (_ & _ & ->)%sidebar_Ok. simpl.
  destruct (present_scores df) as [|q qs] eqn:E.
  - split; [|done]. intros _. simpl. unfold quantile. simpl. done.
  - split; [done|]. intros _.
    destruct (foldr_Qmin_minimum q qs) as [Hmin_in Hmin].
    destruct (foldr_Qmax_maximum q qs) as [Hmax_in Hmax].
    pose proof (quantile_half_median (q :: qs)) as Hq.
    destruct (quantile (1 # 2) (q :: qs)) as [| |mid|] eqn:Eq;
      destruct (median (q :: qs)) as [m|] eqn:Em; simpl in Hq; try done.
    { by apply median_None in Em. }
    destruct (median_between _ _ Em) as (a & b & Ha & Hb & Ham & Hmb).
    exists (foldr Qmin q qs), mid, (foldr Qmax q qs).
    repeat (split; [done|]). split; [|split].
    + rewrite Hq. eapply Qle_trans; [|exact Ham]. by apply Hmin.
    + rewrite Hq. eapply Qle_trans; [exact Hmb|]. by apply Hmax.
    + intros x Hx. split; [by apply Hmin | by apply Hmax].
Qed.

Lemma slider_default_within_bounds_witness :
  ∃ lo mid hi,
    min_value Scenario.sidebar_expected = VNum lo ∧
    max_value Scenario.sidebar_expected = VNum hi ∧
    default_range Scenario.sidebar_expected = (VNum mid, VNum hi) ∧
    lo ∈ present_scores Scenario.enriched ∧
    hi ∈ present_scores Scenario.enriched ∧
    (lo <= mid)%Q ∧ (mid <= hi)%Q ∧
    ∀ q, q ∈ present_scores Scenario.enriched → (lo <= q)%Q ∧ (q <= hi)%Q.
Proof.
  destruct (slider_default_within_bounds Scenario.enriched
              Scenario.sidebar_expected) as [_ H].
  - vm_compute. reflexivity.
  - apply H. vm_compute. discriminate.
Defined.

Lemma screener_rows df lo hi selected out :
  screener df (VNum lo, VNum hi) selected = Ok out →
  rows out = filter (λ r, passesb lo hi selected r = true) (rows df).
Proof.
  unfold screener.
  intros (cells & [_ ->]%getcol_Ok & H)%result_bind_Ok.
  apply result_bind_Ok in H as (above & Habove & H).
  apply result_bind_Ok in H as (below & Hbelow & H).
  apply result_bind_Ok in H as (sectors & [_ ->]%getcol_Ok & [= <-]).
  simpl in *. by apply select_screen.
Qed.

Lemma select_none {A} (above below inside : list bool) (xs : list A) :
  Forall (λ b, b = false) above → select (and3 above below inside) xs = [].
Proof.
  intros H. revert below inside xs.
  induction H as [|a above -> _ IH]; intros [|b below] [|i inside] [|x xs];
    simpl; done.
Qed.

Lemma series_ge_nan cells above :
  series_map (λ v, cell_ge v VNaN) cells = Ok above →
  Forall (λ b, b = false) above.
Proof.
  revert above. induction cells as [|v cells IH]; intros above; simpl.
  - intros [= <-]. constructor.
  - intros (a & Ha & (above' & Habove & [= <-])%result_bind_Ok)%result_bind_Ok.
    constructor; [|by apply IH]. by destruct v; simplify_eq/=.
Qed.

Lemma screener_nan df hi selected out :
  screener df (VNaN, hi) selected = Ok out → rows out = [].
Proof.
  unfold screener.
  intros (cells & _ & H)%result_bind_Ok.
  apply result_bind_Ok in H as (above & Habove%series_ge_nan & H).
  apply result_bind_Ok in H as (below & _ & H).
  apply result_bind_Ok in H as (sectors & _ & [= <-]).
  simpl. by apply select_none.
Qed.

Lemma present_score_row df q :
  q ∈ present_scores df → ∃ r, r ∈ rows df ∧ r !! col_overall = Some (VNum q).
Proof.
  unfold present_scores. intros (r & Hr & Hq)%list_elem_of_omap.
  exists r. split; [done|]. apply cell_present; [|done].
  by destruct (cell r col_overall); simplify_eq/=.
Qed.

Lemma row_present_score df r q :
  r ∈ rows df → r !! col_overall = Some (VNum q) → q ∈ present_scores df.
Proof.
  intros Hr Hq. apply list_elem_of_omap. exists r. split; [done|].
  unfold cell. by rewrite Hq.
Qed.

(** X9.  With the sidebar left at its defaults the filtered frame holds
    every row whose overall score is the greatest one; it is empty only
    when no row of the enriched frame has an overall score at all. *)
Theorem default_view_shows_the_top env base_df s s' df bar filtered :
  page env base_df s
    = (s', Ok (Dashboard df bar (default_range bar) (all_sectors bar) filtered)) →
  (rows filtered = [] ↔ present_scores df = []) ∧
  ∀ r q, r ∈ rows df → r !! col_overall = Some (VNum q) →
         (∀ q', q' ∈ present_scores df → (q' <= q)%Q) →
         r ∈ rows filtered.
Proof.
  intros (tickers & detailed_df & _ & _ & _ & _ & Hbar & _ & _ & Hscr)
    %page_Dashboard.
  apply sidebar_Ok in Hbar as (_ & _ & ->). simpl in Hscr.
  assert (∀ r q, r ∈ rows df → r !! col_overall = Some (VNum q) →
            (∀ q', q' ∈ present_scores df → (q' <= q)%Q) →
            r ∈ rows filtered) as Htop.
  { intros r q Hr Hq Hmax.
    pose proof (row_present_score _ _ _ Hr Hq) as Hin.
    destruct (present_scores df) as [|q0 qs] eqn:E; [by apply elem_of_nil in Hin|].
    destruct (foldr_Qmax_maximum q0 qs) as [Hhi_in Hhi].
    pose proof (quantile_half_median (q0 :: qs)) as Hmid.
    destruct (quantile (1 # 2) (q0 :: qs)) as [| |mid|] eqn:Eq;
      destruct (median (q0 :: qs)) as [m|] eqn:Em; simpl in Hmid; try done.
    { by apply median_None in Em. }
    destruct (median_between _ _ Em) as (a & b & _ & Hb & _ & Hmb).
    simpl in Hscr. rewrite (screener_rows _ _ _ _ _ Hscr).
    apply list_elem_of_filter. split; [|done].
    unfold passesb, cell. rewrite Hq. simpl.
    apply andb_true_iff. split; [apply andb_true_iff; split|].
    - apply Qle_bool_iff. rewrite Hmid.
      eapply Qle_trans; [exact Hmb|]. by apply Hmax.
    - apply Qle_bool_iff. by apply Hhi.
    - rewrite isin_unique. apply isin_spec.
      exists (default VNaN (r !! col_sector)). split; [|apply value_eqb_refl].
      apply list_elem_of_fmap. exists r. done. }
  split; [|exact Htop]. split.
  - intros Hnone. destruct (present_scores df) as [|q0 qs] eqn:E; [done|].
    destruct (foldr_Qmax_maximum q0 qs) as [Hhi_in Hhi].
    rewrite <- E in Hhi_in.
    destruct (present_score_row _ _ Hhi_in) as (r & Hr & Hq).
    pose proof (Htop r _ Hr Hq Hhi) as Hin. rewrite Hnone in Hin.
    by apply elem_of_nil in Hin.
  - intros E. rewrite E in Hscr. simpl in Hscr.
    by apply screener_nan in Hscr.
Qed.

Lemma default_view_shows_the_top_witness :
  (rows Scenario.filtered = [] ↔ present_scores Scenario.enriched = []) ∧
  ∀ r q, r ∈ rows Scenario.enriched → r !! col_overall = Some (VNum q) →
         (∀ q', q' ∈ present_scores Scenario.enriched → (q' <= q)%Q) →
         r ∈ rows Scenario.filtered.
Proof.
  apply (default_view_shows_the_top Scenario.env Scenario.ranking fresh
           (fst (page Scenario.env Scenario.ranking fresh))
           Scenario.enriched Scenario.sidebar_expected Scenario.filtered).
  vm_compute. reflexivity.
Defined.

(** ** The deep dive *)

Lemma get_price_history_run env ticker s :
  ∃ h, get_price_history env ticker s
       = (mkSession (csv_reads s) (info_requests s) (history_requests s ++ [ticker])
                    (load_cache s) (detail_cache s) (price_cache s), Ok h).
Proof.
  unfold get_price_history. rewrite M_bind_run. unfold log_history.
  destruct (ticker_history env ticker); eauto.
Qed.

(** The price panel always comes back, after at most one request for the
    history of its ticker, and touches no other log. *)
Lemma price_panel_run env ticker s :
  ∃ s1 price,
    price_panel env ticker s = (s1, Ok price) ∧
    csv_reads s1 = csv_reads s ∧ info_requests s1 = info_requests s ∧
    (history_requests s1 = history_requests s ∨
     history_requests s1 = (history_requests s ++ [ticker])%list).
Proof.
  unfold price_panel. rewrite M_bind_run.
  unfold get_price_history_cached, cache_data.
  destruct (assoc value_eqb ticker (price_cache s)) as [h|].
  - destruct h; eexists _, _; (split; [reflexivity|]); auto.
  - destruct (get_price_history_run env ticker s) as [h ->].
    destruct h; eexists _, _; (split; [reflexivity|]); simpl; auto.
Qed.

Lemma row_getitems_Ok cols r labels :
  (∀ c, c ∈ labels → c ∈ cols) →
  row_getitems cols r labels = Ok (map (cell r) labels).
Proof.
  intros H. unfold row_getitems.
  destruct (filter (λ c, c ∉ cols) labels) as [|c cs] eqn:E; [done|].
  assert (c ∈ filter (λ c, c ∉ cols) labels) as Hc by (rewrite E; left).
  apply list_elem_of_filter in Hc as [Hn Hc]. destruct Hn. by apply H.
Qed.

Lemma row_getitems_Raise cols r labels c :
  c ∈ labels → c ∉ cols →
  ∃ missing, row_getitems cols r labels = Raise (KeyError missing) ∧ c ∈ missing.
Proof.
  intros Hc Hn. unfold row_getitems.
  assert (c ∈ filter (λ c, c ∉ cols) labels) as Hin
    by (by apply list_elem_of_filter).
  destruct (filter (λ c, c ∉ cols) labels) as [|m ms];
    [by apply elem_of_nil in Hin|]. eauto.
Qed.

Lemma empty_false df c r :
  c ∈ columns df → r ∈ rows df → empty df = false.
Proof.
  unfold empty. destruct (columns df); [by intros ?%elem_of_nil|].
  destruct (rows df); [by intros _ ?%elem_of_nil|done].
Qed.

Lemma filter_none {A} (P : A → Prop) `{∀ x, Decision (P x)} (l : list A) :
  (∀ x, x ∈ l → ¬ P x) → filter P l = [].
Proof.
  induction l as [|x l IH]; intros H'; [done|].
  rewrite filter_cons, decide_False by (apply H'; left).
  apply IH. intros y Hy. apply H'. by right.
Qed.

(** X10.  The deep dive shows the first row that goes by the selected
    name.  When the selection is truthy, the frame has the name, ticker
    and four factor-score columns, and [r] is the first row of the
    filtered frame whose name equals the selection, the deep dive returns
    the profile of [r], its four factor scores in the order value,
    quality, growth, momentum, and the price panel of the ticker of [r];
    a later row of the same name is never shown. *)
Theorem deep_dive_shows_first_match env selectbox filtered_df before r after s :
  rows filtered_df = (before ++ r :: after)%list →
  truthy (selectbox (map (λ r, cell r col_name) (rows filtered_df))) = true →
  (∀ r', r' ∈ before →
     cell_eq (cell r' col_name)
             (selectbox (map (λ r, cell r col_name) (rows filtered_df))) = false) →
  cell_eq (cell r col_name)
          (selectbox (map (λ r, cell r col_name) (rows filtered_df))) = true →
  col_name ∈ columns filtered_df → col_ticker ∈ columns filtered_df →
  (∀ c, c ∈ score_categories → c ∈ columns filtered_df) →
  ∃ s1 price,
    price_panel env (cell r col_ticker) s = (s1, Ok price) ∧
    deep_dive env selectbox filtered_df s
    = (s1, Ok (StockProfile r (map (cell r) score_categories) price)).
Proof.
  intros Hrows Htruthy Hbefore Hr Hname Hticker Hscores.
  destruct (price_panel_run env (cell r col_ticker) s) as (s1 & price & Hpanel & _).
  exists s1, price. split; [done|]. unfold deep_dive.
  rewrite (empty_false filtered_df col_name r)
    by (done || (rewrite Hrows; apply elem_of_app; right; left)).
  rewrite M_bind_run, lift_run. unfold getcol.
  rewrite bool_decide_eq_true_2 by done.
  set (selected := selectbox (map (λ r, cell r col_name) (rows filtered_df))) in *.
  rewrite Htruthy. change (negb true) with false. cbv iota.
  assert (filter (λ r, cell_eq (cell r col_name) selected = true) (rows filtered_df)
          = r :: filter (λ r, cell_eq (cell r col_name) selected = true) after)
    as ->.
  { rewrite Hrows, filter_app, filter_cons, decide_True by done.
    rewrite filter_none; [done|]. intros r' Hr'. by rewrite Hbefore. }
  rewrite M_bind_run, lift_run. unfold row_getitem.
  rewrite (bool_decide_eq_true_2 (col_name ∈ columns filtered_df)) by done.
  rewrite M_bind_run, lift_run, row_getitems_Ok by done.
  rewrite M_bind_run, lift_run.
  rewrite (bool_decide_eq_true_2 (col_ticker ∈ columns filtered_df)) by done.
  rewrite M_bind_run, Hpanel. reflexivity.
Qed.

Lemma deep_dive_shows_first_match_witness :
  ∃ s1 price,
    price_panel Twins.env (cell Twins.first col_ticker) fresh = (s1, Ok price) ∧
    deep_dive Twins.env Twins.pick_twin Twins.filtered fresh
    = (s1, Ok (StockProfile Twins.first
                 (map (cell Twins.first) score_categories) price)).
Proof.
  apply (deep_dive_shows_first_match Twins.env Twins.pick_twin Twins.filtered
           [Twins.other] Twins.first [Twins.second] fresh);
    try reflexivity; try decide_closed.
  - intros r' ->%list_elem_of_singleton. reflexivity.
  - intros c Hc. revert c Hc. apply Forall_forall. decide_closed.
Defined.

(** X11.  The deep dive reads no file and asks the provider for no
    reference data; it asks for at most one price history, that of the
    ticker of a row of the filtered frame.  When the frame lacks one of
    the four factor-score columns, which [load_data] lets pass, the deep
    dive never shows a profile and never asks for a price history: it
    leaves the session as it is and ends in the no-stocks warning, with
    nothing selected, or in an exception. *)
Theorem deep_dive_requests env selectbox filtered_df s :
  csv_reads (fst (deep_dive env selectbox filtered_df s)) = csv_reads s ∧
  info_requests (fst (deep_dive env selectbox filtered_df s)) = info_requests s ∧
  (history_requests (fst (deep_dive env selectbox filtered_df s))
     = history_requests s ∨
   ∃ r, r ∈ rows filtered_df ∧
        history_requests (fst (deep_dive env selectbox filtered_df s))
        = (history_requests s ++ [cell r col_ticker])%list) ∧
  (∀ c, c ∈ score_categories → c ∉ columns filtered_df →
     fst (deep_dive env selectbox filtered_df s) = s ∧
     (snd (deep_dive env selectbox filtered_df s) = Ok NoStocks ∨
      snd (deep_dive env selectbox filtered_df s) = Ok NothingSelected ∨
      ∃ e, snd (deep_dive env selectbox filtered_df s) = Raise e)).
Proof.
  unfold deep_dive. destruct (empty filtered_df); [simpl; auto 10|].
  cbv iota. rewrite M_bind_run, lift_run.
  destruct (getcol col_name filtered_df) as [names|e]; [|simpl; eauto 10].
  destruct (truthy (selectbox names)); cbn [negb]; cbv iota; [|simpl; auto 10].
  destruct (filter _ (rows filtered_df)) as [|r rs] eqn:Hsel; [simpl; eauto 10|].
  assert (r ∈ rows filtered_df) as Hr.
  { assert (r ∈ r :: rs) as H by left. rewrite <- Hsel in H.
    by apply list_elem_of_filter in H as [_ ?]. }
  rewrite M_bind_run, lift_run.
  destruct (row_getitem (columns filtered_df) r col_name) as [name|e];
    [|simpl; eauto 10].
  rewrite M_bind_run, lift_run.
  destruct (row_getitems (columns filtered_df) r score_categories)
    as [scores|e] eqn:Hscores; [|simpl; eauto 10].
  rewrite M_bind_run, lift_run. unfold row_getitem.
  assert (∀ c, c ∈ score_categories → c ∉ columns filtered_df → False) as Hall.
  { intros c Hc Hn.
    destruct (row_getitems_Raise (columns filtered_df) r _ c Hc Hn)
      as (? & ? & _); congruence. }
  case_bool_decide.
  2:{ simpl. split; [done|]. split; [done|]. split; [by left|].
      intros c Hc Hn. destruct (Hall c Hc Hn). }
  rewrite M_bind_run.
  destruct (price_panel_run env (cell r col_ticker) s)
    as (s1 & price & -> & Hreads & Hinfo & Hhist).
  simpl. split; [done|]. split; [done|]. split.
  - destruct Hhist as [->| ->]; eauto.
  - intros c Hc Hn. destruct (Hall c Hc Hn).
Qed.

Lemma deep_dive_requests_witness :
  fst (deep_dive Twins.env Twins.pick_twin Twins.without_growth fresh) = fresh ∧
  (snd (deep_dive Twins.env Twins.pick_twin Twins.without_growth fresh)
     = Ok NoStocks ∨
   snd (deep_dive Twins.env Twins.pick_twin Twins.without_growth fresh)
     = Ok NothingSelected ∨
   ∃ e, snd (deep_dive Twins.env Twins.pick_twin Twins.without_growth fresh)
        = Raise e).
Proof.
  destruct (deep_dive_requests Twins.env Twins.pick_twin Twins.without_growth
              fresh) as (_ & _ & _ & H).
  apply (H col_growth); decide_closed.
Defined.

Example growth_column_missing :
  snd (deep_dive Twins.env Twins.pick_twin Twins.without_growth fresh)
  = Raise (KeyError [col_growth]).
Proof. vm_compute. reflexivity. Qed.

(** ** One enriched row for each ranking row *)

Lemma key_eqb_common a b c :
  key_eqb a b = true → key_eqb a c = true → key_eqb b c = true.
Proof.
  unfold key_eqb. destruct (isna a) eqn:Ha.
  - by intros -> ->.
  - intros Hab Hac.
    assert (isna b = false) as -> by (by destruct a, b).
    rewrite value_eqb_sym in Hab. by eapply value_eqb_trans.
Qed.

Lemma key_eqb_stored a a' b b' :
  stored_as a a' → stored_as b b' → key_eqb a' b' = key_eqb a b.
Proof.
  intros [->|[-> ->]] [->|[-> ->]]; try done; by (destruct a || destruct b).
Qed.

Lemma distinct_keys_cons c r rs :
  distinct_keys c (r :: rs) →
  distinct_keys c rs ∧ ∀ r', r' ∈ rs → key_eqb (cell r c) (cell r' c) = false.
Proof.
  intros H. split.
  - intros i j ri rj Hi Hj Hk.
    assert (S i = S j) by (by eapply H). lia.
  - intros r' (j & Hj)%list_elem_of_lookup_1.
    destruct (key_eqb (cell r c) (cell r' c)) eqn:E; [|done].
    assert (0%nat = S j) by (by eapply (H 0%nat (S j))). lia.
Qed.

(** Among rows with distinct keys at most one matches a given key. *)
Lemma distinct_keys_matches c rs v :
  distinct_keys c rs →
  (length (filter (λ r, key_eqb v (cell r c) = true) rs) ≤ 1)%nat.
Proof.
  induction rs as [|r rs IH]; intros Hd; [simpl; lia|].
  apply distinct_keys_cons in Hd as [Hd Hr]. rewrite filter_cons.
  destruct (decide (key_eqb v (cell r c) = true)) as [Hv|Hv]; [|by apply IH].
  rewrite filter_none; [simpl; lia|].
  intros r' Hr' Hv'. specialize (Hr r' Hr').
  rewrite (key_eqb_common _ _ _ Hv Hv') in Hr. done.
Qed.

Lemma join_rows_one_each top_100_df detailed_df m :
  merge_left col_ticker (drop_column col_name top_100_df) detailed_df = Ok m →
  distinct_keys col_ticker (rows detailed_df) →
  Forall2 (λ l o, o !! col_ticker = Some (cell l col_ticker))
          (rows top_100_df) (rows m).
Proof.
  intros Hm Hd. apply merge_left_Ok in Hm as (_ & Hkey & Hnd & ->). simpl.
  induction (rows top_100_df) as [|l ls IH]; simpl; [constructor|].
  set (base := drop_column col_name top_100_df) in *.
  assert (∃ o, join_row col_ticker base detailed_df (delete col_name l) = [o])
    as [o Ho].
  { unfold join_row.
    pose proof (distinct_keys_matches col_ticker (rows detailed_df)
                  (cell (delete col_name l) col_ticker) Hd) as Hlen.
    fold (matches col_ticker detailed_df (delete col_name l)) in Hlen.
    destruct (matches col_ticker detailed_df (delete col_name l))
      as [|r1 [|r2 rs]]; simpl in *; eauto; lia. }
  rewrite Ho. simpl. constructor; [|exact IH].
  rewrite (join_row_key col_ticker base detailed_df (delete col_name l) o Hkey Hnd)
    by (rewrite Ho; left).
  unfold cell. by rewrite lookup_delete_ne.
Qed.

Lemma Forall2_filter_r {A B} (R : A → B → Prop) (P : B → Prop)
    `{∀ y, Decision (P y)} xs ys :
  Forall2 R xs ys →
  ∃ kept, kept `sublist_of` xs ∧ Forall2 R kept (filter P ys).
Proof.
  induction 1 as [|x y xs ys Hxy _ (kept & Hsub & Hkept)].
  - exists []. split; [done|constructor].
  - rewrite filter_cons. destruct (decide (P y)).
    + exists (x :: kept). split; [by constructor|by constructor].
    + exists kept. split; [by constructor|done].
Qed.

Lemma reference_rows env tickers :
  Forall2 (λ t r, ∃ v, r !! col_ticker = Some v ∧ stored_as t v)
          (filter (λ t, answered env t = true) tickers)
          (rows (frame_of_records (omap (lookup_record env) tickers))).
Proof.
  pose proof (answered_records env tickers) as Hrecs.
  unfold frame_of_records. simpl.
  destruct (decide (omap (lookup_record env) tickers = [])) as [Hnil|Hne].
  { rewrite Hnil in *. simpl.
    apply Forall2_nil_inv_r in Hrecs. rewrite Hrecs. constructor. }
  rewrite record_keys_detail by done.
  apply Forall2_fmap_r. eapply Forall2_impl; [exact Hrecs|].
  intros t d (info & _ & ->). simpl.
  destruct (frame_row_lookup (omap (lookup_record env) tickers) detail_keys
              (detail_record t info) col_ticker detail_keys_NoDup)
    as (v & Hv & Hst); [set_solver|]. eauto.
Qed.

Lemma distinct_tickers_filter (P : value → Prop) `{∀ t, Decision (P t)}
    (tickers : list value) (i j : nat) (a b : value) :
  (∀ i j a b, tickers !! i = Some a → tickers !! j = Some b →
              key_eqb a b = true → i = j) →
  filter P tickers !! i = Some a → filter P tickers !! j = Some b →
  key_eqb a b = true → i = j.
Proof.
  revert i j. induction tickers as [|t ts IH]; intros i j Hd; [done|].
  assert (∀ i j a b, ts !! i = Some a → ts !! j = Some b →
                     key_eqb a b = true → i = j) as Hd'.
  { intros i' j' a' b' Hi Hj Hk. assert (S i' = S j') by (by eapply Hd). lia. }
  rewrite filter_cons. destruct (decide (P t)); [|by apply IH].
  assert (∀ k x, filter P ts !! k = Some x → ∃ k', ts !! k' = Some x) as Hin.
  { intros k x Hx. apply list_elem_of_lookup_1.
    apply list_elem_of_lookup_2 in Hx. by apply list_elem_of_filter in Hx as [_ ?]. }
  destruct i as [|i], j as [|j]; simpl.
  - done.
  - intros [= <-] Hj Hk. destruct (Hin _ _ Hj) as [j' Hj'].
    assert (0%nat = S j') by (by eapply (Hd 0%nat (S j'))). lia.
  - intros Hi [= <-] Hk. destruct (Hin _ _ Hi) as [i' Hi'].
    assert (S i' = 0%nat) by (by eapply (Hd (S i') 0%nat)). lia.
  - intros Hi Hj Hk. f_equal. by eapply IH.
Qed.

(** The frame the fetcher builds from distinct tickers has distinct
    keys. *)
Lemma reference_distinct_keys env tickers :
  (∀ i j a b, tickers !! i = Some a → tickers !! j = Some b →
              key_eqb a b = true → i = j) →
  distinct_keys col_ticker
    (rows (frame_of_records (omap (lookup_record env) tickers))).
Proof.
  intros Hd i j ri rj Hi Hj Hk.
  pose proof (reference_rows env tickers) as Hrows.
  destruct (Forall2_lookup_r _ _ _ _ _ Hrows Hi) as (a & Ha & va & Hva & Hsa).
  destruct (Forall2_lookup_r _ _ _ _ _ Hrows Hj) as (b & Hb & vb & Hvb & Hsb).
  unfold cell in Hk. rewrite Hva, Hvb in Hk. simpl in Hk.
  rewrite (key_eqb_stored _ _ _ _ Hsa Hsb) in Hk.
  by eapply (distinct_tickers_filter (λ t, answered env t = true)).
Qed.

(** X12.  When no two of the ranking rows handed to the merge block have
    equal tickers, the frame of a fresh reference fetch for them enriches
    each ranking row at most once: the enriched rows follow, in order, a
    sub-sequence of the ranking rows and carry their tickers, so that the
    enriched frame has at most as many rows as the ranking side (100 at
    most in the page). *)
Theorem distinct_tickers_enrich_once env top_100_df df :
  distinct_keys col_ticker (rows top_100_df) →
  reconcile top_100_df
    (frame_of_records
       (omap (lookup_record env)
          (map (λ r, cell r col_ticker) (rows top_100_df)))) = Ok df →
  ∃ kept,
    kept `sublist_of` rows top_100_df ∧
    Forall2 (λ l o, o !! col_ticker = Some (cell l col_ticker)) kept (rows df) ∧
    (length (rows df) ≤ length (rows top_100_df))%nat.
Proof.
  intros Hd (m & Hm & Hdrop)%reconcile_Ok.
  assert (distinct_keys col_ticker
            (rows (frame_of_records
                     (omap (lookup_record env)
                        (map (λ r, cell r col_ticker) (rows top_100_df))))))
    as Hdet.
  { apply reference_distinct_keys. intros i j a b Hi Hj Hk.
    rewrite list_lookup_fmap in Hi, Hj.
    destruct (rows top_100_df !! i) as [ri|] eqn:Ei; [|done].
    destruct (rows top_100_df !! j) as [rj|] eqn:Ej; [|done].
    simpl in Hi, Hj. simplify_eq. by eapply Hd. }
  pose proof (join_rows_one_each _ _ _ Hm Hdet) as Hone.
  apply dropna_Ok in Hdrop as [_ ->]. simpl.
  destruct (Forall2_filter_r _ (λ r, complete essential_cols r = true) _ _ Hone)
    as (kept & Hsub & Hkept).
  exists kept. split; [done|]. split; [done|].
  pose proof (Forall2_length _ _ _ Hkept) as Hlen.
  pose proof (sublist_length _ _ Hsub) as Hle.
  etrans; [|exact Hle]. apply Nat.eq_le_incl. symmetry. exact Hlen.
Qed.

Lemma distinct_tickers_enrich_once_witness :
  ∃ kept,
    kept `sublist_of` rows (head 100 Scenario.ranking) ∧
    Forall2 (λ l o, o !! col_ticker = Some (cell l col_ticker)) kept
            (rows Scenario.enriched) ∧
    (length (rows Scenario.enriched) ≤ length (rows (head 100 Scenario.ranking)))%nat.
Proof.
  apply (distinct_tickers_enrich_once Scenario.env (head 100 Scenario.ranking)
           Scenario.enriched).
  - intros i j ri rj Hi Hj Hk.
    destruct i as [|[|[|i]]], j as [|[|[|j]]]; simplify_eq/=; done.
  - vm_compute. reflexivity.
Defined.

(** A ticker listed twice is looked up twice, and each of its two ranking
    rows is joined with both answers. *)
Example repeated_ticker_multiplies :
  map (λ r, (cell r col_ticker, cell r col_overall)) <$>
    (rows <$> snd (page Scenario.env Repeated.ranking fresh)
              ≫= λ p, match p with
                      | Dashboard df _ _ _ _ => Ok df
                      | _ => Raise (OtherError "no dashboard")
                      end)
  = Ok [ (VStr "A", Scenario.num 5); (VStr "A", Scenario.num 5);
         (VStr "A", Scenario.num 6); (VStr "A", Scenario.num 6) ].
Proof. vm_compute. reflexivity. Qed.
